(** * Synthetic-data pipeline: worker loop and orchestrator

    A shallow embedding of [synthetic_data/synthetic_data_pipeline.py]:
    [process_and_save_text] (one worker: per-item retry loop, batched
    writes, drain on exit) and [run_pipeline] / [main] (configuration
    unpacking, speaker resolution, chunk assignment, progress polling,
    join, upload).

    The collaborators the file imports ([TTSProcessor], [AudioTokenizer],
    [save_batch], [save_failed_indices], [create_non_overlapping_chunks],
    [os.makedirs], the [speakers] module, process liveness) are opaque
    calls that may raise.  Their outcomes are parameters; what a run does
    to the outside world is recorded as a trace, in program order. *)

From Stdlib Require Import ZArith Lia Bool Ascii String.
From stdpp Require Import base list strings gmap pretty.

Local Open Scope Z_scope.

(** ** Exceptions and results

    [exn]: the exceptions an [except Exception] clause catches. *)

Inductive exn :=
| KeyError (key : string)
| AttributeError (name : string)
| TypeError (what : string)
| ValueError (what : string)
| IndexError
| ZeroDivisionError
| CollaboratorError (msg : string).

Inductive result (A : Type) :=
| Returns (a : A)
| Raises (e : exn).
Arguments Returns {A} a.
Arguments Raises {A} e.

(** ** Python values

    The values a YAML configuration holds (floats apart), and the
    objects the [speakers] module exports. *)

#[warnings="-register-all"]
Inductive value :=
| VNone
| VBool (b : bool)
| VInt (z : Z)
| VStr (s : string)
| VList (l : list value)
| VDict (d : gmap string value).

(** ** A state-and-exception monad

    [M S A]: a computation over a state [S] that returns an [A] or
    raises.  A raise keeps the state reached so far: Python does not roll
    back [batch.append] or a rebinding when a later statement raises. *)

Definition M (S A : Type) : Type := S -> result A * S.

Definition ret {S A} (a : A) : M S A := fun st => (Returns a, st).

Definition bind {S A B} (c : M S A) (k : A -> M S B) : M S B :=
  fun st =>
    match c st with
    | (Returns a, st') => k a st'
    | (Raises e, st') => (Raises e, st')
    end.

Definition lift {S A} (r : result A) : M S A := fun st => (r, st).

Notation "'let*' x ':=' c 'in' k" := (bind c (fun x => k))
  (at level 10, x pattern, c at level 100, k at level 200).
Notation "c ';;' k" := (bind c (fun _ => k))
  (at level 100, k at level 200, right associativity).

(** ** Data model of the worker *)

(** A row of the dataset: the columns ["index"] and ["prompt"]. *)
Record Row := mkRow { row_index : Z; row_prompt : string }.

Definition Dataset := list Row.

(** The dict appended to [batch] at lines 94-100. *)
Record ProcessedRecord := mkRecord {
  rec_index : Z;
  rec_audio : string;
  rec_tokens : string
}.

(** Where a durable write is issued: inside attempt [attempt] of the item
    at position [pos] of the chunk (lines 103 and 105), or in the final
    drain (lines 122 and 125). *)
Inductive site :=
| InLoop (pos attempt : nat)
| Drain.

(** The collaborators of a worker.  Synthesis and encoding are keyed by
    the position of the item in the chunk and the attempt number, writes
    by their [site]: every call of a run has its own key, so any
    behaviour of the environment is some value of this record. *)
Record Collaborators := mkCollaborators {
  Audio : Type;
  Tokens : Type;
  convert_text_to_audio : nat -> nat -> string -> value -> result Audio;
  process_single_audio : nat -> nat -> Audio -> Z -> result Tokens;
  dumps_audio : Audio -> string;
  dumps_tokens : Tokens -> string;
  save_batch : site -> list ProcessedRecord -> result unit;
  save_failed_indices : site -> string -> list Z -> result unit
}.

(** What a worker does to the outside world, in program order: the calls
    to the two processing stages, the durable writes that returned, the
    increments of the shared counter, and what it logged at warning level
    and above. *)
Inductive event :=
| WriterOpen (file_path : string) (format : string)
| CallTTS (text : string)
| CallTokenizer
| SaveBatch (b : list ProcessedRecord)
| SaveFailedIndices (path : string) (l : list Z)
| Increment
| LogWarning (attempt : Z) (index : Z) (e : exn)
| LogError (index : Z)
| WriterClose.

(** The locals [batch] and [failed_indices], and the trace so far. *)
Record worker_state := mkState {
  batch : list ProcessedRecord;
  failed_indices : list Z;
  trace : list event
}.

Definition emit (e : event) : M worker_state unit :=
  fun st => (Returns tt, mkState (batch st) (failed_indices st) (trace st ++ [e])).

Definition get_batch : M worker_state (list ProcessedRecord) :=
  fun st => (Returns (batch st), st).

Definition set_batch (b : list ProcessedRecord) : M worker_state unit :=
  fun st => (Returns tt, mkState b (failed_indices st) (trace st)).

Definition get_failed : M worker_state (list Z) :=
  fun st => (Returns (failed_indices st), st).

Definition set_failed (l : list Z) : M worker_state unit :=
  fun st => (Returns tt, mkState (batch st) l (trace st)).

(** A call to a processing stage: the call is recorded, then it returns or
    raises. *)
Definition invoke {A} (e : event) (r : result A) : M worker_state A :=
  fun st =>
    (r, mkState (batch st) (failed_indices st) (trace st ++ [e])).

(** A durable write: it is recorded when it returns; a write that raises
    leaves the store as it was. *)
Definition commit (r : result unit) (e : event) : M worker_state unit :=
  fun st =>
    match r with
    | Returns a => (Returns a, mkState (batch st) (failed_indices st) (trace st ++ [e]))
    | Raises x => (Raises x, st)
    end.

(** ** Paths *)

Definition ends_with_slash (s : string) : bool :=
  match reverse (String.list_ascii_of_string s) with
  | c :: _ => bool_decide (c = "/"%char)
  | [] => false
  end.

(** [os.path.join a b] for a relative [b]. *)
Definition path_join (a b : string) : string :=
  if bool_decide (a = EmptyString) then b
  else if ends_with_slash a then (a +:+ b)%string
  else (a +:+ "/" +:+ b)%string.

(** ** The worker: [process_and_save_text] *)

Section Worker.

Variable C : Collaborators.

(** The arguments of [process_and_save_text], apart from [subset] and
    the shared [processed_count], whose updates are the [Increment]
    events.  [device] only tells the two stages where to run. *)
Variable device : string.
Variable process_id : Z.
Variable save_dir : string.
Variable save_batch_size : Z.
Variable sample_rate : Z.
Variable max_retries : Z.
Variable speaker : value.
Variable format : string.

(** Line 71. *)
Definition file_path : string :=
  path_join save_dir ("audio_tokens_" +:+ pretty process_id)%string.

(** Lines 76-78. *)
Definition saved_failed_indice_path : string :=
  path_join save_dir ("failed_indices_" +:+ pretty process_id +:+ ".json")%string.

(** Lines 90-100 up to the argument of [batch.append]: both stages and
    the serialisation of their results. *)
Definition convert (pos attempt : nat) (text : string) (index : Z)
  : M worker_state ProcessedRecord :=
  let* audio := invoke (CallTTS text) (convert_text_to_audio C pos attempt text speaker) in
  let* audio_tokens := invoke CallTokenizer (process_single_audio C pos attempt audio sample_rate) in
  ret (mkRecord index (dumps_audio C audio) (dumps_tokens C audio_tokens)).

(** Lines 94-106: append to the batch and flush it when it is full. *)
Definition offer (s : site) (r : ProcessedRecord) : M worker_state unit :=
  let* b := get_batch in
  set_batch (b ++ [r]) ;;
  let* b := get_batch in
  if Z.of_nat (length b) >=? save_batch_size then
    commit (save_batch C s b) (SaveBatch b) ;;
    set_batch [] ;;
    let* f := get_failed in
    commit (save_failed_indices C s saved_failed_indice_path f)
         (SaveFailedIndices saved_failed_indice_path f) ;;
    set_failed []
  else ret tt.

(** Lines 90-109: the body of the [try]. *)
Definition attempt_body (pos attempt : nat) (text : string) (index : Z) : M worker_state unit :=
  let* r := convert pos attempt text index in
  offer (InLoop pos attempt) r ;;
  emit Increment.

(** Lines 111-117: the [except Exception] handler. *)
Definition handler (attempt : nat) (index : Z) (e : exn) : M worker_state unit :=
  emit (LogWarning (Z.of_nat attempt + 1) index e) ;;
  if Z.of_nat attempt =? max_retries - 1 then
    emit (LogError index) ;;
    let* f := get_failed in
    set_failed (f ++ [index])
  else ret tt.

(** Lines 88-117: [for attempt in range(max_retries)], [remaining]
    iterations left, the next one numbered [attempt].  A normal end of
    the body is the [break]; a raise runs the handler, which itself
    returns, and the loop goes on. *)
Fixpoint retry_loop (pos : nat) (text : string) (index : Z)
         (remaining attempt : nat) (st : worker_state) : worker_state :=
  match remaining with
  | O => st
  | S remaining' =>
      match attempt_body pos attempt text index st with
      | (Returns _, st') => st'
      | (Raises e, st') =>
          retry_loop pos text index remaining' (S attempt)
                     (snd (handler attempt index e st'))
      end
  end.

Definition process_item (pos : nat) (item : string * Z) (st : worker_state)
  : worker_state :=
  retry_loop pos (fst item) (snd item) (Z.to_nat max_retries) 0%nat st.

(** Lines 86-117: the loop over [zip(batch_prompt, batch_index)]. *)
Fixpoint items_loop (pos : nat) (items : list (string * Z)) (st : worker_state)
  : worker_state :=
  match items with
  | [] => st
  | item :: rest => items_loop (S pos) rest (process_item pos item st)
  end.

(** Lines 119-127. *)
Definition drain : M worker_state unit :=
  let* b := get_batch in
  (if bool_decide (b <> []) then commit (save_batch C Drain b) (SaveBatch b) else ret tt) ;;
  let* f := get_failed in
  (if bool_decide (f <> []) then
     commit (save_failed_indices C Drain saved_failed_indice_path f)
          (SaveFailedIndices saved_failed_indice_path f)
   else ret tt) ;;
  emit WriterClose.

Definition batch_prompt (subset : Dataset) : list string := map row_prompt subset.
Definition batch_index (subset : Dataset) : list Z := map row_index subset.

(** Lines 58-85: the state in which the loop is entered. *)
Definition init_state : worker_state :=
  mkState [] [] [WriterOpen file_path format].

Definition zipped (subset : Dataset) : list (string * Z) :=
  zip (batch_prompt subset) (batch_index subset).

(** The state after the loop over the items, before the drain. *)
Definition after_items (subset : Dataset) : worker_state :=
  items_loop 0 (zipped subset) init_state.

Definition process_and_save_text (subset : Dataset) : result unit * worker_state :=
  drain (after_items subset).

End Worker.

(** ** Operations on Python values used by the orchestrator *)

(** [v[key]] for a string key. *)
Definition subscript (v : value) (key : string) : result value :=
  match v with
  | VDict d =>
      match d !! key with
      | Some x => Returns x
      | None => Raises (KeyError key)
      end
  | _ => Raises (TypeError "subscript")
  end.

(** [len(v)]. *)
Definition len (v : value) : result nat :=
  match v with
  | VList l => Returns (length l)
  | VStr s => Returns (String.length s)
  | VDict d => Returns (size d)
  | _ => Raises (TypeError "len")
  end.

Fixpoint string_repeat (n : nat) (s : string) : string :=
  match n with
  | O => EmptyString
  | S n' => s +:+ string_repeat n' s
  end.

(** [n * v] for an int [n >= 0]. *)
Definition int_mul (n : nat) (v : value) : result value :=
  match v with
  | VInt z => Returns (VInt (Z.of_nat n * z))
  | VBool b => Returns (VInt (Z.of_nat n * (if b then 1 else 0)))
  | VStr s => Returns (VStr (string_repeat n s))
  | VList l => Returns (VList (concat (replicate n l)))
  | VNone | VDict _ => Raises (TypeError "*")
  end.

(** [v[j]] for an int [0 <= j < len(v)]. *)
Definition item_at (v : value) (j : nat) : result value :=
  match v with
  | VList l =>
      match l !! j with
      | Some x => Returns x
      | None => Raises IndexError
      end
  | VStr s =>
      match String.get j s with
      | Some c => Returns (VStr (String c EmptyString))
      | None => Raises IndexError
      end
  | VDict _ => Raises (KeyError (pretty j))
  | _ => Raises (TypeError "subscript")
  end.

(** Truth value of [v] in an [if]. *)
Definition truthy (v : value) : bool :=
  match v with
  | VNone => false
  | VBool b => b
  | VInt z => negb (z =? 0)
  | VStr s => negb (bool_decide (s = EmptyString))
  | VList l => negb (bool_decide (l = []))
  | VDict d => negb (bool_decide (size d = 0%nat))
  end.

(** [list(range(v))]. *)
Definition range (v : value) : result (list Z) :=
  match v with
  | VInt z => Returns (map Z.of_nat (seq 0 (Z.to_nat z)))
  | VBool b => Returns (if b then [0] else [])
  | _ => Raises (TypeError "range")
  end.

(** ** The orchestrator: [run_pipeline] and [main] *)

(** The arguments given to [Process(target=process_and_save_text, ...)],
    the shared counter apart. *)
Record WorkerArgs := mkArgs {
  w_chunk : Dataset;
  w_device : value;
  w_process_id : nat;
  w_save_dir : value;
  w_save_batch_size : value;
  w_sample_rate : value;
  w_max_retries : value;
  w_speaker : value;
  w_format : value
}.

(** What the orchestrator does, in program order. *)
Inductive oevent :=
| LoadConfig (path : string)
| ConfigureLogging
| LoadDataset (name split : value)
| Select (indices : list Z)
| OpenRemaining (file : value)
| LogSubsample (n : nat) (name : value)
| LogFull (name : value)
| PrintConfig (config : value)
| ImportModule (name : string)
| Makedirs (save_dir : value)
| LogDatasetSize (n : nat)
| CreateChunks (num_workers : value)
| NewCounter
| ProcessStart (w : WorkerArgs)
| LogProcessed (count : Z)
| Sleep (seconds : Z)
| ProcessJoin (process_id : nat)
| LogAllFinished
| LogFinalCount (count : Z)
| LogUploading
| UploadFolderToS3 (save_dir bucket_name s3_folder num_processes : value).

(** The environment of the orchestrator.  [is_alive k i] is what
    [p.is_alive()] answers for process [i] in round [k] of the polling
    loop; [count_at k] is the value of the shared counter read in that
    round, [final_count] the one read after the joins. *)
Record Host := mkHost {
  speakers : gmap string value;
  makedirs : value -> result unit;
  create_non_overlapping_chunks : Dataset -> value -> result (list Dataset);
  is_alive : nat -> nat -> bool;
  count_at : nat -> Z;
  final_count : Z;
  load_config : string -> result value;
  load_dataset : value -> value -> result Dataset;
  select : Dataset -> list Z -> result Dataset;
  json_load : value -> result (list Z);
  upload_folder_to_s3 : value -> value -> value -> value -> result unit
}.

Definition Orch : Type -> Type := M (list oevent).

Definition log (e : oevent) : Orch unit := fun tr => (Returns tt, tr ++ [e]).

(** A collaborator call: recorded, then it returns or raises. *)
Definition perform {A} (e : oevent) (r : result A) : Orch A :=
  fun tr => (r, tr ++ [e]).

(** How a call of [run_pipeline] ends within the rounds of polling it is
    given: it returned, or some worker is still alive. *)
Inductive status :=
| Finished
| StillPolling.

Definition required_keys : list string :=
  ["devices"; "num_procs_per_device"; "save_dir"; "save_batch_size";
   "sample_rate"; "max_retries"; "speaker"; "format"]%string.

Section Orchestrator.

Variable H : Host.

(** Lines 155-167: the generator [config[key] for key in [...]]. *)
Fixpoint lookup_keys (config : value) (keys : list string) : result (list value) :=
  match keys with
  | [] => Returns []
  | key :: rest =>
      match subscript config key with
      | Raises e => Raises e
      | Returns v =>
          match lookup_keys config rest with
          | Raises e => Raises e
          | Returns vs => Returns (v :: vs)
          end
      end
  end.

(** Line 170: [getattr(importlib.import_module("speakers"), speaker)]. *)
Definition getattr_speakers (speaker : value) : result value :=
  match speaker with
  | VStr name =>
      match speakers H !! name with
      | Some obj => Returns obj
      | None => Raises (AttributeError name)
      end
  | _ => Raises (TypeError "getattr")
  end.

(** Lines 184-202: [for i, chunk in enumerate(chunks)], from [i] on; the
    result is the list appended to [worker_processes]. *)
Fixpoint start_workers (devices save_dir save_batch_size sample_rate max_retries
                        speaker format : value)
         (i : nat) (chunks : list Dataset) : Orch (list nat) :=
  match chunks with
  | [] => ret []
  | chunk :: rest =>
      let* n := lift (len devices) in
      let* j := lift (if bool_decide (n = 0%nat) then Raises ZeroDivisionError
                      else Returns (i mod n)%nat) in
      let* device := lift (item_at devices j) in
      log (ProcessStart (mkArgs chunk device i save_dir save_batch_size
                                sample_rate max_retries speaker format)) ;;
      let* ps := start_workers devices save_dir save_batch_size sample_rate
                               max_retries speaker format (S i) rest in
      ret (i :: ps)
  end.

(** Lines 204-207: the polling loop from round [round] on, with [fuel]
    rounds allowed.  [true]: the loop was left. *)
Fixpoint poll (fuel round : nat) (worker_processes : list nat) : Orch bool :=
  match fuel with
  | O => ret false
  | S fuel' =>
      if existsb (is_alive H round) worker_processes then
        log (LogProcessed (count_at H round)) ;;
        log (Sleep 60) ;;
        poll fuel' (S round) worker_processes
      else ret true
  end.

(** Lines 210-211. *)
Fixpoint join_all (worker_processes : list nat) : Orch unit :=
  match worker_processes with
  | [] => ret tt
  | p :: rest => log (ProcessJoin p) ;; join_all rest
  end.

(** Lines 144-202: everything up to the start of the last worker. *)
Definition launch (dataset : Dataset) (config : value) : Orch (list nat) :=
  log (PrintConfig config) ;;
  let* vs := lift (lookup_keys config required_keys) in
  match vs with
  | [devices; num_procs_per_device; save_dir; save_batch_size;
     sample_rate; max_retries; speaker; format] =>
      let* speaker := perform (ImportModule "speakers") (getattr_speakers speaker) in
      perform (Makedirs save_dir) (makedirs H save_dir) ;;
      let* n := lift (len devices) in
      let* num_workers := lift (int_mul n num_procs_per_device) in
      log (LogDatasetSize (length dataset)) ;;
      let* chunks := perform (CreateChunks num_workers)
                             (create_non_overlapping_chunks H dataset num_workers) in
      log NewCounter ;;
      start_workers devices save_dir save_batch_size sample_rate max_retries
                    speaker format 0 chunks
  | _ => lift (Raises (ValueError "unpack"))
  end.

Definition run_pipeline (fuel : nat) (dataset : Dataset) (config : value) : Orch status :=
  let* worker_processes := launch dataset config in
  let* done := poll fuel 0 worker_processes in
  if done then
    join_all worker_processes ;;
    log LogAllFinished ;;
    log (LogFinalCount (final_count H)) ;;
    ret Finished
  else ret StillPolling.

(** [config[a][b]]. *)
Definition subscript2 (config : value) (a b : string) : result value :=
  match subscript config a with
  | Returns v => subscript v b
  | Raises e => Raises e
  end.

(** Lines 224-251: load the configuration and the dataset, choose the
    pipeline configuration, and select the rows to process. *)
Definition prepare (config_path : string) : Orch (value * value * Dataset) :=
  let* config := perform (LoadConfig config_path) (load_config H config_path) in
  log ConfigureLogging ;;
  let* name := lift (subscript2 config "dataset" "name") in
  let* split := lift (subscript2 config "dataset" "split") in
  let* dataset := perform (LoadDataset name split) (load_dataset H name split) in
  let* test_mode := lift (subscript config "test_mode") in
  let* (pipeline_config, dataset) :=
    (if truthy test_mode then
       let* pipeline_config := lift (subscript config "test") in
       let* num_samples := lift (subscript2 config "test" "num_samples") in
       let* indices := lift (range num_samples) in
       let* dataset := perform (Select indices) (select H dataset indices) in
       ret (pipeline_config, dataset)
     else
       let* pipeline_config := lift (subscript config "processing") in
       ret (pipeline_config, dataset)) in
  let* remaining := lift (subscript2 config "dataset" "remaining_indices_file") in
  let* dataset :=
    (if truthy remaining then
       let* file := lift (subscript2 config "dataset" "remaining_indices_file") in
       let* remaining_indices := perform (OpenRemaining file) (json_load H file) in
       let* dataset := perform (Select remaining_indices) (select H dataset remaining_indices) in
       let* name := lift (subscript2 config "dataset" "name") in
       log (LogSubsample (length dataset) name) ;;
       ret dataset
     else
       let* name := lift (subscript2 config "dataset" "name") in
       log (LogFull name) ;;
       ret dataset) in
  ret (config, pipeline_config, dataset).

(** Lines 255-262: the upload, when it is configured. *)
Definition handoff (config : value) : Orch unit :=
  let* upload := lift (subscript config "upload_to_s3") in
  if truthy upload then
    log LogUploading ;;
    let* save_dir := lift (subscript2 config "s3" "save_dir") in
    let* bucket_name := lift (subscript2 config "s3" "bucket_name") in
    let* s3_folder := lift (subscript2 config "s3" "s3_folder") in
    let* num_processes := lift (subscript2 config "s3" "num_processes") in
    perform (UploadFolderToS3 save_dir bucket_name s3_folder num_processes)
            (upload_folder_to_s3 H save_dir bucket_name s3_folder num_processes)
  else ret tt.

(** Lines 219-262. *)
Definition main (fuel : nat) (config_path : string) : Orch status :=
  let* (config, pipeline_config, dataset) := prepare config_path in
  let* st := run_pipeline fuel dataset pipeline_config in
  match st with
  | StillPolling => ret StillPolling
  | Finished => handoff config ;; ret Finished
  end.

End Orchestrator.

(** ** Observations on a worker trace *)

(** The records in the worker's output: the batches of the [save_batch]
    calls that returned, in order. *)
Definition written (tr : list event) : list ProcessedRecord :=
  flat_map (fun e => match e with SaveBatch b => b | _ => [] end) tr.

(** The indices handed to the [save_failed_indices] calls that returned. *)
Definition persisted_failed (tr : list event) : list Z :=
  flat_map (fun e => match e with SaveFailedIndices _ l => l | _ => [] end) tr.

(** How many times [processed_count.value += 1] ran. *)
Definition increments (tr : list event) : nat :=
  length (flat_map (fun e => match e with Increment => [tt] | _ => [] end) tr).

(** How many attempts were started: each begins with the call at line 90. *)
Definition attempts (tr : list event) : nat :=
  length (flat_map (fun e => match e with CallTTS _ => [tt] | _ => [] end) tr).

(** Whether [writer.close()] ran. *)
Definition closed (tr : list event) : bool :=
  existsb (fun e => match e with WriterClose => true | _ => false end) tr.

Section WorkerObservations.

Variable C : Collaborators.
Variable process_id : Z.
Variable save_dir : string.
Variable save_batch_size : Z.
Variable sample_rate : Z.
Variable max_retries : Z.
Variable speaker : value.
Variable format : string.

(** The outcome of the two stages of attempt [attempt] on the item at
    position [pos]: the record line 94 appends, or the exception. *)
Definition conversion (pos attempt : nat) (text : string) (index : Z)
  : result ProcessedRecord :=
  fst (convert C sample_rate speaker pos attempt text index (mkState [] [] [])).

(** The state in which the worker reaches the item at position [p] of its
    chunk, and the one in which it leaves it. *)
Definition state_before (subset : Dataset) (p : nat) : worker_state :=
  items_loop C process_id save_dir save_batch_size sample_rate max_retries speaker 0
             (take p (zipped subset)) (init_state process_id save_dir format).

Definition state_after (subset : Dataset) (p : nat) : worker_state :=
  items_loop C process_id save_dir save_batch_size sample_rate max_retries speaker 0
             (take (S p) (zipped subset)) (init_state process_id save_dir format).

(** Both writes issued at site [s] return, whatever they are given. *)
Definition write_returns (s : site) : Prop :=
  (forall b, save_batch C s b = Returns tt) /\
  (forall l, save_failed_indices C s (saved_failed_indice_path process_id save_dir) l
             = Returns tt).

(** A run of offers, each at its own site: the first raise ends it. *)
Fixpoint offer_all (rs : list (site * ProcessedRecord)) : M worker_state unit :=
  match rs with
  | [] => ret tt
  | (s, r) :: rest =>
      offer C process_id save_dir save_batch_size s r ;; offer_all rest
  end.

End WorkerObservations.

(** Every record the worker has appended so far and not lost: those in
    its output followed by those still in [batch]. *)
Definition produced (st : worker_state) : list ProcessedRecord :=
  written (trace st) ++ batch st.

(** Every index recorded as failed so far: those persisted followed by
    those still in [failed_indices]. *)
Definition recorded_failed (st : worker_state) : list Z :=
  persisted_failed (trace st) ++ failed_indices st.

Section DrainFailure.

Variable C : Collaborators.
Variable process_id : Z.
Variable save_dir : string.

(** A write of the drain raises [e] in state [st]: the flush of a
    non-empty batch (line 122), or, that flush skipped or returned, the
    write of a non-empty failed-index list (line 125). *)
Definition drain_fails (st : worker_state) (e : exn) : Prop :=
  (batch st <> [] /\ save_batch C Drain (batch st) = Raises e) \/
  ((batch st = [] \/ save_batch C Drain (batch st) = Returns tt) /\
   failed_indices st <> [] /\
   save_failed_indices C Drain (saved_failed_indice_path process_id save_dir)
                       (failed_indices st) = Raises e).

End DrainFailure.

(** ** Concrete collaborators *)

(** Stages that return the text itself as audio and as tokens, unless
    [stage_ok pos attempt] is false; writes that return unless
    [batch_ok s] / [failed_ok s] is false. *)
Definition scripted (stage_ok : nat -> nat -> bool) (batch_ok failed_ok : site -> bool)
  : Collaborators :=
  mkCollaborators string string
    (fun pos attempt text _ =>
       if stage_ok pos attempt then Returns text
       else Raises (CollaboratorError "synthesis failed"))
    (fun _ _ audio _ => Returns audio)
    (fun audio => audio)
    (fun tokens => tokens)
    (fun s _ => if batch_ok s then Returns tt else Raises (CollaboratorError "disk full"))
    (fun s _ _ => if failed_ok s then Returns tt else Raises (CollaboratorError "disk full")).

Definition always : site -> bool := fun _ => true.

(** ** Observations on an orchestrator trace *)

(** The workers started, in order. *)
Definition starts (tr : list oevent) : list WorkerArgs :=
  flat_map (fun e => match e with ProcessStart w => [w] | _ => [] end) tr.

(** The processes joined, in order. *)
Definition joins (tr : list oevent) : list nat :=
  flat_map (fun e => match e with ProcessJoin p => [p] | _ => [] end) tr.

(** The chunk counts asked of [create_non_overlapping_chunks]. *)
Definition chunk_requests (tr : list oevent) : list value :=
  flat_map (fun e => match e with CreateChunks n => [n] | _ => [] end) tr.

(** The calls to [upload_folder_to_s3]. *)
Definition uploads (tr : list oevent) : list oevent :=
  flat_map (fun e => match e with UploadFolderToS3 _ _ _ _ => [e] | _ => [] end) tr.

(** The resolutions of the speaker. *)
Definition imports (tr : list oevent) : list string :=
  flat_map (fun e => match e with ImportModule name => [name] | _ => [] end) tr.

(** The directories created. *)
Definition made_dirs (tr : list oevent) : list value :=
  flat_map (fun e => match e with Makedirs d => [d] | _ => [] end) tr.

(** What [rounds] rounds of the polling loop log. *)
Definition polling_log (H : Host) (rounds : nat) : list oevent :=
  flat_map (fun k => [LogProcessed (count_at H k); Sleep 60]) (seq 0 rounds).

(** ** A concrete host *)

Definition pipeline_settings : gmap string value :=
  list_to_map
    [("devices", VList [VStr "cuda:0"; VStr "cuda:1"]);
     ("num_procs_per_device", VInt 2);
     ("save_dir", VStr "out");
     ("save_batch_size", VInt 3);
     ("sample_rate", VInt 16000);
     ("max_retries", VInt 3);
     ("speaker", VStr "default_speaker");
     ("format", VStr "parquet")]%string.

Definition full_config : value :=
  VDict (list_to_map
    [("dataset", VDict (list_to_map [("name", VStr "prompts"); ("split", VStr "train");
                                     ("remaining_indices_file", VNone)]));
     ("test_mode", VBool false);
     ("processing", VDict pipeline_settings);
     ("upload_to_s3", VBool true);
     ("s3", VDict (list_to_map [("save_dir", VStr "out"); ("bucket_name", VStr "bucket");
                                ("s3_folder", VStr "tokens"); ("num_processes", VInt 4)]))]%string).

(** A host whose chunker hands every worker the whole dataset, whose
    workers are alive for the first two rounds of polling, and whose
    other collaborators return. *)
Definition demo_host : Host :=
  mkHost
    (list_to_map [("default_speaker", VStr "spk")]%string)
    (fun _ => Returns tt)
    (fun dataset n =>
       match n with
       | VInt z => Returns (replicate (Z.to_nat z) dataset)
       | _ => Raises (TypeError "num_chunks")
       end)
    (fun round _ => (round <? 2)%nat)
    (fun round => Z.of_nat round)
    10
    (fun _ => Returns full_config)
    (fun _ _ => Returns [mkRow 0 "a"; mkRow 1 "b"])
    (fun dataset _ => Returns dataset)
    (fun _ => Returns [])
    (fun _ _ _ _ => Returns tt).

(** A chunk of two items, and the arguments of a worker for it. *)
Definition two_items : Dataset := [mkRow 7 "a"; mkRow 8 "b"].

(** Collaborators whose stages raise on the first attempt of the second
    item only. *)
Definition second_item_retried : Collaborators :=
  scripted (fun pos attempt => negb ((pos =? 1)%nat && (attempt =? 0)%nat)) always always.

(** Collaborators whose stages always raise on the second item. *)
Definition second_item_fails : Collaborators :=
  scripted (fun pos _ => negb (pos =? 1)%nat) always always.

(** Collaborators whose first batch flush raises. *)
Definition first_flush_raises : Collaborators :=
  scripted (fun _ _ => true)
           (fun s => match s with InLoop 0 0 => false | _ => true end) always.

(** A worker on the single item of index 7, with batches of one record
    and two attempts per item, whose first flush raises. *)
Definition retried_flush_run : result unit * worker_state :=
  process_and_save_text first_flush_raises 0 "out" 1 16000 2 (VStr "spk") "parquet"
                        [mkRow 7 "a"].

(** Collaborators whose flush in the drain raises. *)
Definition drain_flush_raises : Collaborators :=
  scripted (fun _ _ => true)
           (fun s => match s with Drain => false | _ => true end) always.

(** ** Further observations on a worker trace *)

(** The batches handed to the [save_batch] calls that returned, one per
    flush. *)
Definition flushes (tr : list event) : list (list ProcessedRecord) :=
  flat_map (fun e => match e with SaveBatch b => [b] | _ => [] end) tr.

(** The indices of the [logger.error] calls of line 116. *)
Definition logged_errors (tr : list event) : list Z :=
  flat_map (fun e => match e with LogError i => [i] | _ => [] end) tr.

(** The batch holds fewer than [save_batch_size] records and every flush
    so far wrote exactly [save_batch_size] records. *)
Definition batch_bounded (save_batch_size : Z) (st : worker_state) : Prop :=
  Z.of_nat (length (batch st)) < save_batch_size /\
  Forall (fun b => Z.of_nat (length b) = save_batch_size) (flushes (trace st)).

(** ** Further observations on the orchestrator *)

(** What a worker started from [config] is given: the values under the
    keys of the configuration, the object its speaker resolves to, and
    the item of [devices] at its identifier modulo [len(devices)]. *)
Definition given_from (H : Host) (config : value) (w : WorkerArgs) : Prop :=
  subscript config "save_dir" = Returns (w_save_dir w) /\
  subscript config "save_batch_size" = Returns (w_save_batch_size w) /\
  subscript config "sample_rate" = Returns (w_sample_rate w) /\
  subscript config "max_retries" = Returns (w_max_retries w) /\
  subscript config "format" = Returns (w_format w) /\
  (exists name, subscript config "speaker" = Returns (VStr name) /\
                speakers H !! name = Some (w_speaker w)) /\
  exists devices n,
    subscript config "devices" = Returns devices /\
    len devices = Returns n /\ n <> 0%nat /\
    item_at devices (w_process_id w mod n)%nat = Returns (w_device w).

(** The configurations printed by [run_pipeline], in order. *)
Definition printed (tr : list oevent) : list value :=
  flat_map (fun e => match e with PrintConfig c => [c] | _ => [] end) tr.

(** The index lists given to [dataset.select], in order. *)
Definition selections (tr : list oevent) : list (list Z) :=
  flat_map (fun e => match e with Select indices => [indices] | _ => [] end) tr.

(** ** Further concrete hosts *)

(** The settings of [pipeline_settings] with an empty list of devices. *)
Definition no_device_settings : gmap string value :=
  <["devices" := VList []]> pipeline_settings.

(** [demo_host] with a chunker that returns the whole dataset as one
    chunk, whatever the count it is asked for. *)
Definition one_chunk_host : Host :=
  mkHost (speakers demo_host) (makedirs demo_host)
         (fun dataset _ => Returns [dataset])
         (is_alive demo_host) (count_at demo_host) (final_count demo_host)
         (load_config demo_host) (load_dataset demo_host) (select demo_host)
         (json_load demo_host) (upload_folder_to_s3 demo_host).

(** [full_config] without its ["upload_to_s3"] key. *)
Definition no_upload_config : value :=
  match full_config with
  | VDict d => VDict (delete "upload_to_s3" d)
  | v => v
  end.

(** [demo_host] loading [no_upload_config]. *)
Definition no_upload_host : Host :=
  mkHost (speakers demo_host) (makedirs demo_host)
         (create_non_overlapping_chunks demo_host)
         (is_alive demo_host) (count_at demo_host) (final_count demo_host)
         (fun _ => Returns no_upload_config)
         (load_dataset demo_host) (select demo_host)
         (json_load demo_host) (upload_folder_to_s3 demo_host).

(** A configuration in test mode, with a file of remaining indices. *)
Definition test_config : value :=
  VDict (list_to_map
    [("dataset", VDict (list_to_map [("name", VStr "prompts"); ("split", VStr "train");
                                     ("remaining_indices_file", VStr "left.json")]));
     ("test_mode", VBool true);
     ("test", VDict (<["num_samples" := VInt 2]> pipeline_settings));
     ("processing", VDict pipeline_settings);
     ("upload_to_s3", VBool false)]%string).

(** [demo_host] loading [test_config], with a [select] that picks the
    rows at the given positions and a file of remaining indices that
    holds position 1. *)
Definition test_host : Host :=
  mkHost (speakers demo_host) (makedirs demo_host)
         (create_non_overlapping_chunks demo_host)
         (is_alive demo_host) (count_at demo_host) (final_count demo_host)
         (fun _ => Returns test_config)
         (fun _ _ => Returns [mkRow 0 "a"; mkRow 1 "b"; mkRow 2 "c"])
         (fun dataset indices => Returns (omap (fun i => dataset !! Z.to_nat i) indices))
         (fun _ => Returns [1])
         (upload_folder_to_s3 demo_host).

(** [main] enters [run_pipeline] with the configuration [pc] and the
    dataset [ds]: the preparation returns them, and the trace of [main]
    goes on as [run_pipeline] does on them. *)
Definition hands_over (H : Host) (fuel : nat) (path : string)
           (pc : value) (ds : Dataset) : Prop :=
  exists config tr0,
    prepare H path [] = (Returns (config, pc, ds), tr0) /\
    snd (run_pipeline H fuel ds pc tr0) `prefix_of` snd (main H fuel path []).

(** [test_host] with a [select] that raises [IndexError] for a position
    the dataset does not hold, and a file of remaining indices that holds
    position 2, which the test subset of two rows does not have. *)
Definition beyond_host : Host :=
  mkHost (speakers test_host) (makedirs test_host)
         (create_non_overlapping_chunks test_host)
         (is_alive test_host) (count_at test_host) (final_count test_host)
         (load_config test_host) (load_dataset test_host)
         (fun dataset indices =>
            match mapM (fun i => if i <? 0 then None else dataset !! Z.to_nat i) indices with
            | Some rows => Returns rows
            | None => Raises IndexError
            end)
         (fun _ => Returns [2])
         (upload_folder_to_s3 test_host).

(** * Facts about the worker *)

Lemma written_app tr1 tr2 : written (tr1 ++ tr2) = written tr1 ++ written tr2.
Proof. apply flat_map_app. Qed.

Lemma persisted_failed_app tr1 tr2 :
  persisted_failed (tr1 ++ tr2) = persisted_failed tr1 ++ persisted_failed tr2.
Proof. apply flat_map_app. Qed.

Lemma increments_app tr1 tr2 : increments (tr1 ++ tr2) = (increments tr1 + increments tr2)%nat.
Proof. unfold increments. now rewrite flat_map_app, length_app. Qed.

Lemma attempts_app tr1 tr2 : attempts (tr1 ++ tr2) = (attempts tr1 + attempts tr2)%nat.
Proof. unfold attempts. now rewrite flat_map_app, length_app. Qed.

Lemma closed_app tr1 tr2 : closed (tr1 ++ tr2) = closed tr1 || closed tr2.
Proof. apply existsb_app. Qed.

Arguments written !tr /.
Arguments persisted_failed !tr /.
Arguments increments !tr /.
Arguments attempts !tr /.
Arguments closed !tr /.

Create Rewrite HintDb obs.
#[local] Hint Rewrite written_app persisted_failed_app increments_app
  attempts_app closed_app : obs.

Ltac obs :=
  unfold produced, recorded_failed in *; simpl in *;
  autorewrite with obs in *; simpl in *;
  rewrite ?app_nil_r, ?orb_false_r, ?Nat.add_0_r in *.

Ltac fin :=
  repeat split; auto; rewrite <- ?app_assoc; simpl; auto; try lia; try congruence.

Lemma not_nonempty {A} (l : list A) : ~ l <> [] -> l = [].
Proof. destruct l; [reflexivity|]. intros H. exfalso. apply H. discriminate. Qed.

Section WorkerFacts.

Variable C : Collaborators.
Variable process_id : Z.
Variable save_dir : string.
Variable save_batch_size : Z.
Variable sample_rate : Z.
Variable max_retries : Z.
Variable speaker : value.
Variable format : string.

Local Abbreviation path := (saved_failed_indice_path process_id save_dir).
Local Abbreviation conv := (conversion C sample_rate speaker).
Local Abbreviation attempt := (attempt_body C process_id save_dir save_batch_size sample_rate speaker).
Local Abbreviation offer1 := (offer C process_id save_dir save_batch_size).
Local Abbreviation retry := (retry_loop C process_id save_dir save_batch_size sample_rate max_retries speaker).
Local Abbreviation item1 := (process_item C process_id save_dir save_batch_size sample_rate max_retries speaker).
Local Abbreviation items := (items_loop C process_id save_dir save_batch_size sample_rate max_retries speaker).
Local Abbreviation drain1 := (drain C process_id save_dir).
Local Abbreviation worker := (process_and_save_text C process_id save_dir save_batch_size sample_rate max_retries speaker format).
Local Abbreviation before := (state_before C process_id save_dir save_batch_size sample_rate max_retries speaker format).
Local Abbreviation after := (state_after C process_id save_dir save_batch_size sample_rate max_retries speaker format).
Local Abbreviation handle := (handler max_retries).
Local Abbreviation returns := (write_returns C process_id save_dir).

Lemma attempt_effect pos a text index st res st' :
  attempt pos a text index st = (res, st') ->
  recorded_failed st' = recorded_failed st /\
  attempts (trace st') = S (attempts (trace st)) /\
  closed (trace st') = closed (trace st) /\
  match conv pos a text index with
  | Raises e =>
      res = Raises e /\ batch st' = batch st /\
      failed_indices st' = failed_indices st /\
      written (trace st') = written (trace st) /\
      persisted_failed (trace st') = persisted_failed (trace st) /\
      increments (trace st') = increments (trace st)
  | Returns r =>
      rec_index r = index /\
      produced st' = produced st ++ [r] /\
      increments (trace st')
      = (increments (trace st) + match res with Returns _ => 1 | Raises _ => 0 end)%nat /\
      (returns (InLoop pos a) -> res = Returns tt)
  end.
Proof.
  unfold attempt_body, conversion, convert, offer, bind, invoke, commit, emit, ret,
    get_batch, set_batch, get_failed, set_failed, write_returns; simpl.
  destruct (convert_text_to_audio C pos a text speaker) as [audio|e]; simpl.
  2:{ intros [= <- <-]. obs. repeat split; auto. all: lia. }
  destruct (process_single_audio C pos a audio sample_rate) as [toks|e]; simpl.
  2:{ intros [= <- <-]. obs. fin. }
  destruct (Z.of_nat _ >=? save_batch_size); simpl.
  2:{ intros [= <- <-]. obs. fin. }
  destruct (save_batch C (InLoop pos a) _) as [[]|e] eqn:Hb; simpl.
  2:{ intros [= <- <-]. obs. fin.
      intros [Hw _]. rewrite Hw in Hb. discriminate. }
  destruct (save_failed_indices C (InLoop pos a) _ _) as [[]|e] eqn:Hf; simpl.
  2:{ intros [= <- <-]. obs. fin.
      intros [_ Hw]. rewrite Hw in Hf. discriminate. }
  intros [= <- <-]. obs. fin.
Qed.

Lemma conversion_index pos a text index r :
  conv pos a text index = Returns r -> rec_index r = index.
Proof.
  unfold conversion, convert, bind, invoke, ret; simpl.
  destruct (convert_text_to_audio C pos a text speaker) as [audio|e]; simpl; [|discriminate].
  destruct (process_single_audio C pos a audio sample_rate) as [toks|e]; simpl; [|discriminate].
  now intros [= <-].
Qed.

Lemma handle_effect a index e st :
  handle a index e st
  = (Returns tt,
     if Z.of_nat a =? max_retries - 1
     then mkState (batch st) (failed_indices st ++ [index])
                  (trace st ++ [LogWarning (Z.of_nat a + 1) index e; LogError index])
     else mkState (batch st) (failed_indices st)
                  (trace st ++ [LogWarning (Z.of_nat a + 1) index e])).
Proof.
  unfold handler, bind, emit, get_failed, set_failed, ret; simpl.
  destruct (Z.of_nat a =? max_retries - 1); simpl; [|reflexivity].
  now rewrite <- app_assoc.
Qed.

(** Whatever the collaborators do, handling one item only appends: records
    of that item to what was produced, its index to what was recorded as
    failed, and at most one increment. *)
Lemma retry_grows pos text index remaining :
  forall a st,
    let st' := retry pos text index remaining a st in
    exists recs fails,
      produced st' = produced st ++ recs /\
      Forall (fun r => rec_index r = index) recs /\
      recorded_failed st' = recorded_failed st ++ fails /\
      Forall (fun i => i = index) fails /\
      (increments (trace st) <= increments (trace st') <= increments (trace st) + 1)%nat /\
      (attempts (trace st) + Nat.min 1 remaining <= attempts (trace st')
       <= attempts (trace st) + remaining)%nat /\
      closed (trace st') = closed (trace st).
Proof.
  induction remaining as [|n IH]; intros a st; simpl.
  - exists [], []. rewrite !app_nil_r. fin.
  - destruct (attempt pos a text index st) as [res st1] eqn:Hatt.
    apply attempt_effect in Hatt as (Hrf & Hat & Hcl & Hconv).
    destruct res as [[]|e].
    + destruct (conv pos a text index) as [r|e'].
      * destruct Hconv as (Hi & Hp & Hinc & _).
        exists [r], []. rewrite app_nil_r. fin.
      * destruct Hconv as (? & _). discriminate.
    + rewrite handle_effect. simpl.
      set (st2 := if Z.of_nat a =? max_retries - 1 then _ else _).
      destruct (IH (S a) st2) as (recs & fails & Hp & Hrecs & Hf & Hfails & Hinc & Hat' & Hcl').
      assert (Hst2 : produced st2 = produced st1 /\
                     increments (trace st2) = increments (trace st1) /\
                     attempts (trace st2) = attempts (trace st1) /\
                     closed (trace st2) = closed (trace st1) /\
                     exists f, recorded_failed st2 = recorded_failed st1 ++ f /\
                               Forall (fun i => i = index) f).
      { subst st2. destruct (Z.of_nat a =? max_retries - 1); obs; fin.
        - exists [index]. fin.
        - exists []. rewrite app_nil_r. fin. }
      destruct Hst2 as (Hp2 & Hi2 & Ha2 & Hc2 & f & Hf2 & Hff).
      rewrite Hp, Hf, Hcl', Hp2, Hf2, Hc2, Hcl, Hrf.
      destruct (conv pos a text index) as [r|e'].
      * destruct Hconv as (Hi & Hp1 & Hinc1 & _).
        exists (r :: recs), (f ++ fails). rewrite Hp1. fin.
        apply Forall_app; auto.
      * destruct Hconv as (_ & Hb & Hfi & Hw & Hpf & Hinc1).
        exists recs, (f ++ fails). fin.
        -- unfold produced. now rewrite Hw, Hb.
        -- apply Forall_app; auto.
Qed.

(** An item whose two stages raise on every remaining attempt. *)
Lemma retry_fail pos text index remaining :
  forall a st,
    (a + remaining)%nat = Z.to_nat max_retries ->
    (1 <= remaining)%nat ->
    (forall k, (a <= k < a + remaining)%nat -> exists e, conv pos k text index = Raises e) ->
    let st' := retry pos text index remaining a st in
    batch st' = batch st /\
    failed_indices st' = failed_indices st ++ [index] /\
    written (trace st') = written (trace st) /\
    persisted_failed (trace st') = persisted_failed (trace st) /\
    increments (trace st') = increments (trace st) /\
    attempts (trace st') = (attempts (trace st) + remaining)%nat /\
    last (trace st') = Some (LogError index).
Proof.
  induction remaining as [|n IH]; intros a st Hsum Hpos Hall; [lia|]. simpl.
  destruct (attempt pos a text index st) as [res st1] eqn:Hatt.
  apply attempt_effect in Hatt as (_ & Hat & _ & Hconv).
  destruct (Hall a) as [e He]; [lia|]. rewrite He in Hconv.
  destruct Hconv as (-> & Hb & Hfi & Hw & Hpf & Hinc).
  rewrite handle_effect. simpl.
  destruct (Z.of_nat a =? max_retries - 1) eqn:Hlast.
  - assert (n = 0%nat) as -> by lia. simpl. obs.
    rewrite last_app_cons. simpl.
    rewrite Hb, Hfi, Hw, Hpf, Hinc, Hat. fin.
  - assert (1 <= n)%nat by lia.
    edestruct (IH (S a)) as (Hb' & Hfi' & Hw' & Hpf' & Hinc' & Hat' & Hlast');
      [| eassumption | | ].
    + lia.
    + intros k Hk. apply Hall. lia.
    + rewrite Hb', Hfi', Hw', Hpf', Hinc', Hat', Hlast'. obs.
      rewrite Hb, Hfi, Hw, Hpf, Hinc, Hat. fin.
Qed.

(** An item whose stages raise on [k] attempts and return on the next,
    with the writes of that attempt returning. *)
Lemma retry_success pos text index r k :
  forall remaining a st,
    (a + remaining)%nat = Z.to_nat max_retries ->
    (k < remaining)%nat ->
    (forall j, (a <= j < a + k)%nat -> exists e, conv pos j text index = Raises e) ->
    conv pos (a + k) text index = Returns r ->
    returns (InLoop pos (a + k)) ->
    let st' := retry pos text index remaining a st in
    produced st' = produced st ++ [r] /\
    recorded_failed st' = recorded_failed st /\
    increments (trace st') = S (increments (trace st)) /\
    attempts (trace st') = (attempts (trace st) + k + 1)%nat.
Proof.
  induction k as [|k IH]; intros remaining a st Hsum Hk Hfail Hok Hw;
    (destruct remaining as [|n]; [lia|]); simpl.
  - rewrite Nat.add_0_r in *.
    destruct (attempt pos a text index st) as [res st1] eqn:Hatt.
    apply attempt_effect in Hatt as (Hrf & Hat & _ & Hconv).
    rewrite Hok in Hconv. destruct Hconv as (_ & Hp & Hinc & Hres).
    rewrite (Hres Hw) in *. fin.
  - destruct (attempt pos a text index st) as [res st1] eqn:Hatt.
    apply attempt_effect in Hatt as (Hrf & Hat & _ & Hconv).
    destruct (Hfail a) as [e He]; [lia|]. rewrite He in Hconv.
    destruct Hconv as (-> & Hb & Hfi & Hw1 & Hpf & Hinc).
    rewrite handle_effect. simpl.
    assert ((Z.of_nat a =? max_retries - 1) = false) as -> by lia.
    edestruct (IH n (S a)) as (Hp' & Hrf' & Hinc' & Hat').
    + lia.
    + lia.
    + intros j Hj. apply Hfail. lia.
    + replace (S a + k)%nat with (a + S k)%nat by lia. exact Hok.
    + replace (S a + k)%nat with (a + S k)%nat by lia. exact Hw.
    + rewrite Hp', Hrf', Hinc', Hat'. obs.
      rewrite Hb, Hfi, Hw1, Hpf, Hinc, Hat. fin.
Qed.

(** ** The loop over the items *)

Lemma items_app l1 : forall l2 pos st,
  items pos (l1 ++ l2) st = items (pos + length l1) l2 (items pos l1 st).
Proof.
  induction l1 as [|x l1 IH]; intros l2 pos st; simpl.
  - now rewrite Nat.add_0_r.
  - rewrite IH. now replace (S pos + length l1)%nat with (pos + S (length l1))%nat by lia.
Qed.

Lemma zipped_map subset :
  zipped subset = map (fun row => (row_prompt row, row_index row)) subset.
Proof.
  unfold zipped, batch_prompt, batch_index.
  induction subset as [|row rest IH]; simpl; [reflexivity|]. now rewrite <- IH.
Qed.

Lemma zipped_lookup subset p row :
  subset !! p = Some row -> zipped subset !! p = Some (row_prompt row, row_index row).
Proof.
  rewrite zipped_map. revert p.
  induction subset as [|x rest IH]; intros [|p]; simpl; try discriminate.
  - now intros [= ->].
  - apply IH.
Qed.

Lemma zipped_indices subset : map snd (zipped subset) = map row_index subset.
Proof. rewrite zipped_map, map_map. reflexivity. Qed.

Lemma after_before subset p row :
  subset !! p = Some row ->
  after subset p = item1 p (row_prompt row, row_index row) (before subset p).
Proof.
  intros H. apply zipped_lookup in H. unfold state_after, state_before.
  rewrite (take_S_r _ _ _ H), items_app. simpl.
  rewrite length_take_le; [reflexivity|].
  apply lookup_lt_Some in H. lia.
Qed.

Lemma after_items_from subset p :
  after_items C process_id save_dir save_batch_size sample_rate max_retries speaker format subset
  = items (S p `min` length (zipped subset)) (drop (S p) (zipped subset)) (after subset p).
Proof.
  unfold after_items, state_after.
  rewrite <- (take_drop (S p) (zipped subset)) at 1.
  rewrite items_app, length_take. reflexivity.
Qed.

(** Whatever the collaborators do, the loop only appends records whose
    index is that of one of its items, never closes the writer, and
    attempts every item when [max_retries >= 1]. *)
Lemma items_grows l : forall pos st,
  let st' := items pos l st in
  exists recs fails,
    produced st' = produced st ++ recs /\
    Forall (fun r => rec_index r ∈ map snd l) recs /\
    recorded_failed st' = recorded_failed st ++ fails /\
    Forall (fun i => i ∈ map snd l) fails /\
    (increments (trace st) <= increments (trace st') <= increments (trace st) + length l)%nat /\
    (attempts (trace st) <= attempts (trace st'))%nat /\
    closed (trace st') = closed (trace st).
Proof.
  induction l as [|[text index] l IH]; intros pos st; simpl.
  - exists [], []. rewrite !app_nil_r. fin.
  - unfold process_item; simpl.
    destruct (retry_grows pos text index (Z.to_nat max_retries) 0%nat st)
      as (recs1 & fails1 & Hp1 & Hr1 & Hf1 & Hff1 & Hinc1 & Hat1 & Hc1).
    destruct (IH (S pos) (retry pos text index (Z.to_nat max_retries) 0%nat st))
      as (recs2 & fails2 & Hp2 & Hr2 & Hf2 & Hff2 & Hinc2 & Hat2 & Hc2).
    exists (recs1 ++ recs2), (fails1 ++ fails2).
    rewrite Hp2, Hf2, Hc2, Hp1, Hf1, Hc1. fin.
    + apply Forall_app; split.
      * eapply Forall_impl; [exact Hr1|]. simpl. intros r ->. left.
      * eapply Forall_impl; [exact Hr2|]. simpl. intros r Hr. now right.
    + apply Forall_app; split.
      * eapply Forall_impl; [exact Hff1|]. simpl. intros r ->. left.
      * eapply Forall_impl; [exact Hff2|]. simpl. intros r Hr. now right.
Qed.

Lemma produced_init : produced (init_state process_id save_dir format) = [].
Proof. reflexivity. Qed.

Lemma filter_index_none (i : Z) (recs : list ProcessedRecord) :
  Forall (fun r => rec_index r ≠ i) recs ->
  filter (fun r => rec_index r = i) recs = [].
Proof.
  induction 1 as [|r recs Hr _ IH]; [reflexivity|].
  rewrite filter_cons_False; auto.
Qed.

Lemma indices_apart subset p row :
  subset !! p = Some row ->
  NoDup (map row_index subset) ->
  (row_index row ∉ map snd (take p (zipped subset))) /\
  (row_index row ∉ map snd (drop (S p) (zipped subset))).
Proof.
  intros Hp Hnd. rewrite <- zipped_indices in Hnd.
  apply zipped_lookup in Hp.
  rewrite <- (take_drop_middle _ _ _ Hp), map_app in Hnd. simpl in Hnd.
  apply NoDup_app in Hnd as (_ & Hpre & Hpost).
  apply NoDup_cons in Hpost as [Hpost _].
  split; [|exact Hpost].
  intros Hin. apply (Hpre _ Hin). left.
Qed.

Lemma Forall_not_index (i : Z) (l : list Z) (recs : list ProcessedRecord) :
  i ∉ l ->
  Forall (fun r => rec_index r ∈ l) recs ->
  Forall (fun r => rec_index r ≠ i) recs.
Proof.
  intros Hi H. eapply Forall_impl; [exact H|]. simpl. intros r Hr Heq. rewrite Heq in Hr. contradiction.
Qed.

(** ** The drain *)

Lemma drain_returns st :
  returns Drain ->
  drain1 st
  = (Returns tt,
     mkState (batch st) (failed_indices st)
       (trace st
        ++ (if bool_decide (batch st <> []) then [SaveBatch (batch st)] else [])
        ++ (if bool_decide (failed_indices st <> [])
            then [SaveFailedIndices path (failed_indices st)] else [])
        ++ [WriterClose])).
Proof.
  intros [Hb Hf].
  unfold drain, bind, commit, emit, ret, get_batch, get_failed; simpl.
  destruct (bool_decide (batch st <> [])); simpl; rewrite ?Hb; simpl;
    (destruct (bool_decide (failed_indices st <> [])); simpl; rewrite ?Hf; simpl);
    rewrite <- ?app_assoc; reflexivity.
Qed.

Lemma drain_effect st res st' :
  drain1 st = (res, st') ->
  match res with
  | Returns _ =>
      written (trace st') = produced st /\
      persisted_failed (trace st') = recorded_failed st /\
      closed (trace st') = true
  | Raises e =>
      drain_fails C process_id save_dir st e /\
      closed (trace st') = closed (trace st) /\
      (written (trace st') = written (trace st) \/ written (trace st') = produced st)
  end.
Proof.
  unfold drain, drain_fails, bind, commit, emit, ret, get_batch, get_failed; simpl.
  destruct (bool_decide (batch st <> [])) eqn:Hbne; simpl.
  - apply bool_decide_eq_true in Hbne.
    destruct (save_batch C Drain (batch st)) as [[]|e] eqn:Hb; simpl.
    2:{ intros [= <- <-]. fin. }
    destruct (bool_decide (failed_indices st <> [])) eqn:Hfne; simpl.
    + apply bool_decide_eq_true in Hfne.
      destruct (save_failed_indices C Drain _ _) as [[]|e] eqn:Hf; simpl;
        intros [= <- <-]; obs; fin.
    + apply bool_decide_eq_false in Hfne.
      assert (failed_indices st = []) as Hnil by (apply not_nonempty; assumption).
      intros [= <- <-]. obs. rewrite ?Hnil, ?app_nil_r. fin.
  - apply bool_decide_eq_false in Hbne.
    assert (batch st = []) as Hnil by (apply not_nonempty; assumption).
    destruct (bool_decide (failed_indices st <> [])) eqn:Hfne; simpl.
    + apply bool_decide_eq_true in Hfne.
      destruct (save_failed_indices C Drain _ _) as [[]|e] eqn:Hf; simpl;
        intros [= <- <-]; obs; rewrite ?Hnil, ?app_nil_r; fin.
    + apply bool_decide_eq_false in Hfne.
      assert (failed_indices st = []) as Hnil' by (apply not_nonempty; assumption).
      intros [= <- <-]. obs. rewrite ?Hnil, ?Hnil', ?app_nil_r. fin.
Qed.

Lemma drain_fails_raises st e :
  drain_fails C process_id save_dir st e ->
  exists st', drain1 st = (Raises e, st') /\ closed (trace st') = closed (trace st).
Proof.
  unfold drain, drain_fails, bind, commit, emit, ret, get_batch, get_failed; simpl.
  intros [[Hne Hb] | (Hb & Hne & Hf)].
  - rewrite bool_decide_eq_true_2 by assumption. simpl. rewrite Hb. simpl. eauto.
  - assert (Hpre : exists tr,
      (let (r, st1) := (if bool_decide (batch st <> [])
                        then commit (save_batch C Drain (batch st)) (SaveBatch (batch st))
                        else ret tt) st in
       (r, st1)) = (Returns tt, mkState (batch st) (failed_indices st) tr)
      /\ closed tr = closed (trace st)).
    { destruct Hb as [Hb|Hb].
      - rewrite bool_decide_eq_false_2 by (rewrite Hb; auto).
        exists (trace st). destruct st; auto.
      - destruct (bool_decide (batch st <> [])).
        + unfold commit. rewrite Hb. eexists. split; [reflexivity|]. obs. fin.
        + exists (trace st). destruct st; auto. }
    destruct Hpre as (tr & Hpre & Hcl).
    unfold commit, ret in *.
    destruct (if bool_decide (batch st <> []) then _ else _) as [r st1].
    injection Hpre as -> ->. simpl.
    rewrite bool_decide_eq_true_2 by assumption. simpl. rewrite Hf. simpl. eauto.
Qed.

Lemma drain_raises_trace st e final :
  drain1 st = (Raises e, final) ->
  trace final = trace st \/ trace final = trace st ++ [SaveBatch (batch st)].
Proof.
  unfold drain, bind, commit, emit, ret, get_batch, get_failed; simpl.
  destruct (bool_decide (batch st <> [])); simpl.
  - destruct (save_batch C Drain (batch st)) as [[]|e1]; simpl.
    2:{ intros [= <- <-]. now left. }
    destruct (bool_decide (failed_indices st <> [])); simpl.
    + destruct (save_failed_indices C Drain _ _) as [[]|e1]; simpl;
        intros [= <- <-]. now right.
    + intros [=].
  - destruct (bool_decide (failed_indices st <> [])); simpl.
    + destruct (save_failed_indices C Drain _ _) as [[]|e1]; simpl;
        intros [= <- <-]. now left.
    + intros [=].
Qed.

Lemma closed_after_items subset :
  closed (trace (after_items C process_id save_dir save_batch_size sample_rate
                             max_retries speaker format subset)) = false.
Proof.
  unfold after_items.
  destruct (items_grows (zipped subset) 0%nat (init_state process_id save_dir format))
    as (_ & _ & _ & _ & _ & _ & _ & _ & Hc).
  rewrite Hc. reflexivity.
Qed.

(** ** Offers *)

Lemma offer_below s r st :
  Z.of_nat (length (batch st)) + 1 < save_batch_size ->
  offer1 s r st = (Returns tt, mkState (batch st ++ [r]) (failed_indices st) (trace st)).
Proof.
  intros H. unfold offer, bind, get_batch, set_batch, ret; simpl.
  rewrite length_app. simpl.
  assert ((Z.of_nat (length (batch st) + 1) >=? save_batch_size) = false) as ->
    by (rewrite Z.geb_leb; apply Z.leb_gt; lia).
  reflexivity.
Qed.

Lemma offer_flush s r st :
  save_batch_size <= Z.of_nat (length (batch st)) + 1 ->
  returns s ->
  offer1 s r st
  = (Returns tt,
     mkState [] [] (trace st ++ [SaveBatch (batch st ++ [r]);
                                 SaveFailedIndices path (failed_indices st)])).
Proof.
  intros H [Hb Hf].
  unfold offer, bind, get_batch, set_batch, get_failed, set_failed, commit, ret; simpl.
  rewrite length_app. simpl.
  assert ((Z.of_nat (length (batch st) + 1) >=? save_batch_size) = true) as ->
    by (rewrite Z.geb_leb; apply Z.leb_le; lia).
  rewrite Hb. simpl. rewrite Hf. simpl. now rewrite <- app_assoc.
Qed.

(** ** The claims about the worker *)

Lemma split_run subset p row :
  subset !! p = Some row ->
  NoDup (map row_index subset) ->
  exists pre post,
    produced (before subset p) = pre /\
    Forall (fun r => rec_index r ≠ row_index row) pre /\
    produced (after_items C process_id save_dir save_batch_size sample_rate
                          max_retries speaker format subset)
    = produced (after subset p) ++ post /\
    Forall (fun r => rec_index r ≠ row_index row) post /\
    exists fails,
      recorded_failed (after_items C process_id save_dir save_batch_size sample_rate
                                   max_retries speaker format subset)
      = recorded_failed (after subset p) ++ fails.
Proof.
  intros Hp Hnd. destruct (indices_apart _ _ _ Hp Hnd) as [Hpre Hpost].
  destruct (items_grows (take p (zipped subset)) 0%nat (init_state process_id save_dir format))
    as (pre & _ & Hpp & Hpi & _).
  destruct (items_grows (drop (S p) (zipped subset))
                        (S p `min` length (zipped subset)) (after subset p))
    as (post & fails & Hqp & Hqi & Hqf & _).
  rewrite <- after_items_from in Hqp, Hqf.
  exists pre, post. rewrite produced_init in Hpp. simpl in Hpp.
  repeat split; eauto using Forall_not_index.
Qed.

(** Exactly-once accounting on the runs whose writes return.  Take an
    item of the chunk, at position [p], whose stages raise on its first
    [k] attempts and return the record [r] on the next one, that attempt
    being within [max_retries]; let the writes issued by that attempt and
    by the drain return, and the indices of the chunk be distinct.  Then
    handling the item increments the shared counter exactly once,
    whatever the number of attempts ([k + 1] of them are made), and the
    worker's output holds exactly one record carrying the item's index,
    [r]. *)
Theorem exactly_once_success_accounting subset p row k r :
  subset !! p = Some row ->
  NoDup (map row_index subset) ->
  (k < Z.to_nat max_retries)%nat ->
  (forall j, (j < k)%nat ->
             exists e, conv p j (row_prompt row) (row_index row) = Raises e) ->
  conv p k (row_prompt row) (row_index row) = Returns r ->
  returns (InLoop p k) ->
  returns Drain ->
  increments (trace (after subset p)) = S (increments (trace (before subset p))) /\
  attempts (trace (after subset p)) = (attempts (trace (before subset p)) + k + 1)%nat /\
  exists final,
    worker subset = (Returns tt, final) /\
    filter (fun x => rec_index x = row_index row) (written (trace final)) = [r].
Proof.
  intros Hp Hnd Hk Hfail Hok Hw Hd.
  destruct (split_run _ _ _ Hp Hnd) as (pre & post & Hpre & Hpi & Hpost & Hqi & _).
  pose proof (retry_success p (row_prompt row) (row_index row) r k
                (Z.to_nat max_retries) 0%nat (before subset p)) as Hs.
  simpl in Hs. destruct Hs as (Hprod & _ & Hinc & Hat); auto.
  { intros j Hj. apply Hfail. lia. }
  pose proof (after_before _ _ _ Hp) as Ha.
  unfold process_item in Ha; simpl in Ha. rewrite Ha in *. clear Ha.
  repeat split; auto.
  unfold process_and_save_text.
  destruct (drain1 _) as [res final] eqn:Hdr.
  pose proof Hdr as Hdr'. rewrite (drain_returns _ Hd) in Hdr'.
  injection Hdr' as <- _.
  apply drain_effect in Hdr as (Hwr & _).
  exists final. split; [reflexivity|].
  rewrite Hwr, Hpost, Hprod, Hpre, !filter_app.
  rewrite (filter_index_none _ _ Hpi), (filter_index_none _ _ Hqi).
  rewrite app_nil_r. simpl.
  apply conversion_index in Hok.
  rewrite filter_cons_True by assumption. reflexivity.
Qed.

(** C3 -- an item that fails on every attempt.  With [max_retries >= 1],
    take an item, at position [p], whose stages raise on each of the
    [max_retries] attempts.  Then exactly [max_retries] attempts are made
    for it; the last thing the worker does for it is to log the error and
    append its index to [failed_indices]; the counter is not incremented
    for it; its index never appears in the worker's output, however the
    run ends; and when the worker returns, the index is among those
    handed to [save_failed_indices]. *)
Theorem exhausted_retries_are_recorded subset p row :
  1 <= max_retries ->
  subset !! p = Some row ->
  NoDup (map row_index subset) ->
  (forall k, (k < Z.to_nat max_retries)%nat ->
             exists e, conv p k (row_prompt row) (row_index row) = Raises e) ->
  attempts (trace (after subset p))
  = (attempts (trace (before subset p)) + Z.to_nat max_retries)%nat /\
  last (trace (after subset p)) = Some (LogError (row_index row)) /\
  failed_indices (after subset p) = failed_indices (before subset p) ++ [row_index row] /\
  increments (trace (after subset p)) = increments (trace (before subset p)) /\
  forall res final,
    worker subset = (res, final) ->
    (row_index row ∉ map rec_index (written (trace final))) /\
    (res = Returns tt -> row_index row ∈ persisted_failed (trace final)).
Proof.
  intros Hmax Hp Hnd Hfail.
  destruct (split_run _ _ _ Hp Hnd) as (pre & post & Hpre & Hpi & Hpost & Hqi & fails & Hrf).
  pose proof (retry_fail p (row_prompt row) (row_index row)
                (Z.to_nat max_retries) 0%nat (before subset p)) as Hs.
  simpl in Hs. destruct Hs as (Hb & Hfi & Hw & Hpf & Hinc & Hat & Hlast); auto; try lia.
  { intros k Hk. apply Hfail. lia. }
  pose proof (after_before _ _ _ Hp) as Ha.
  unfold process_item in Ha; simpl in Ha. rewrite Ha in *. clear Ha.
  split; [exact Hat|]. split; [exact Hlast|]. split; [exact Hfi|]. split; [exact Hinc|].
  intros res final Hrun. unfold process_and_save_text in Hrun.
  apply drain_effect in Hrun. split.
  - assert (Hprod : Forall (fun r => rec_index r ≠ row_index row)
                      (produced (after_items C process_id save_dir save_batch_size
                                   sample_rate max_retries speaker format subset))).
    { rewrite Hpost. unfold produced at 1. rewrite Hw, Hb.
      fold (produced (before subset p)). rewrite Hpre.
      apply Forall_app; auto. }
    assert (Hsub : Forall (fun r => rec_index r ≠ row_index row) (written (trace final))).
    { destruct res as [[]|e].
      - destruct Hrun as (-> & _). exact Hprod.
      - destruct Hrun as (_ & _ & [-> | ->]); [|exact Hprod].
        unfold produced in Hprod. apply Forall_app in Hprod. tauto. }
    intros Hin. apply list_elem_of_In, in_map_iff in Hin as (r & Hr & Hin).
    rewrite Forall_forall in Hsub. apply list_elem_of_In in Hin.
    exact (Hsub _ Hin Hr).
  - intros ->. destruct Hrun as (_ & -> & _).
    rewrite Hrf. unfold recorded_failed at 1. rewrite Hpf, Hfi.
    rewrite !elem_of_app. left. right. right. left.
Qed.

(** Where a write that raises is caught and where it is not.  With
    [max_retries >= 1], every item of the
    chunk is attempted, whatever the writes did before it.  A batch flush
    or a failed-index write that raises inside an attempt is caught by
    the handler of that attempt, like a failure of the stages, and the
    loop goes on with the next attempt.  The worker raises exactly when a
    write of the final drain raises, and then that write was issued once
    and nothing was issued after it. *)
Theorem write_failure_fatal_only_in_drain subset :
  1 <= max_retries ->
  (forall p row, subset !! p = Some row ->
     (attempts (trace (before subset p)) < attempts (trace (after subset p)))%nat) /\
  (forall pos a text index st r e n,
     conv pos a text index = Returns r ->
     save_batch_size <= Z.of_nat (length (batch st)) + 1 ->
     save_batch C (InLoop pos a) (batch st ++ [r]) = Raises e ->
     retry pos text index (S n) a st
     = retry pos text index n (S a)
         (snd (handle a index e
                 (mkState (batch st ++ [r]) (failed_indices st)
                          (trace st ++ [CallTTS text; CallTokenizer]))))) /\
  (forall pos a text index st r e n,
     conv pos a text index = Returns r ->
     save_batch_size <= Z.of_nat (length (batch st)) + 1 ->
     save_batch C (InLoop pos a) (batch st ++ [r]) = Returns tt ->
     save_failed_indices C (InLoop pos a) path (failed_indices st) = Raises e ->
     retry pos text index (S n) a st
     = retry pos text index n (S a)
         (snd (handle a index e
                 (mkState [] (failed_indices st)
                          (trace st ++ [CallTTS text; CallTokenizer;
                                        SaveBatch (batch st ++ [r])]))))) /\
  (forall e, fst (worker subset) = Raises e <->
             drain_fails C process_id save_dir
               (after_items C process_id save_dir save_batch_size sample_rate
                            max_retries speaker format subset) e) /\
  (forall e final,
     worker subset = (Raises e, final) ->
     let st := after_items C process_id save_dir save_batch_size sample_rate
                           max_retries speaker format subset in
     trace final = trace st \/ trace final = trace st ++ [SaveBatch (batch st)]).
Proof.
  intros Hmax. split; [|split; [|split; [|split]]].
  - intros p row Hp. rewrite (after_before _ _ _ Hp). unfold process_item. simpl.
    destruct (retry_grows p (row_prompt row) (row_index row) (Z.to_nat max_retries)
                0%nat (before subset p)) as (_ & _ & _ & _ & _ & _ & _ & Hat & _).
    lia.
  - intros pos a text index st r e n Hconv Hfull Hb. simpl.
    assert (attempt pos a text index st
            = (Raises e, mkState (batch st ++ [r]) (failed_indices st)
                                 (trace st ++ [CallTTS text; CallTokenizer]))) as ->;
      [|reflexivity].
    revert Hconv.
    unfold attempt_body, conversion, convert, offer, bind, invoke, commit, emit, ret,
      get_batch, set_batch, get_failed, set_failed; simpl.
    destruct (convert_text_to_audio C pos a text speaker) as [audio|e1]; simpl; [|discriminate].
    destruct (process_single_audio C pos a audio sample_rate) as [toks|e1]; simpl;
      [|discriminate].
    intros [= <-]. rewrite length_app. simpl.
    assert ((Z.of_nat (length (batch st) + 1) >=? save_batch_size) = true) as ->
      by (rewrite Z.geb_leb; apply Z.leb_le; lia).
    rewrite Hb. simpl. now rewrite <- app_assoc.
  - intros pos a text index st r e n Hconv Hfull Hb Hf. simpl.
    assert (attempt pos a text index st
            = (Raises e, mkState [] (failed_indices st)
                                 (trace st ++ [CallTTS text; CallTokenizer;
                                               SaveBatch (batch st ++ [r])]))) as ->;
      [|reflexivity].
    revert Hconv.
    unfold attempt_body, conversion, convert, offer, bind, invoke, commit, emit, ret,
      get_batch, set_batch, get_failed, set_failed; simpl.
    destruct (convert_text_to_audio C pos a text speaker) as [audio|e1]; simpl; [|discriminate].
    destruct (process_single_audio C pos a audio sample_rate) as [toks|e1]; simpl;
      [|discriminate].
    intros [= <-]. rewrite length_app. simpl.
    assert ((Z.of_nat (length (batch st) + 1) >=? save_batch_size) = true) as ->
      by (rewrite Z.geb_leb; apply Z.leb_le; lia).
    rewrite Hb. simpl. rewrite Hf. simpl. now rewrite <- !app_assoc.
  - intros e. split.
    + unfold process_and_save_text. destruct (drain1 _) as [res final] eqn:Hdr. simpl.
      intros ->. apply drain_effect in Hdr. tauto.
    + intros Hf. apply drain_fails_raises in Hf as (st' & Hdr & _).
      unfold process_and_save_text. now rewrite Hdr.
  - intros e final. unfold process_and_save_text. apply drain_raises_trace.
Qed.

(** C4 -- batch flush threshold.  With [save_batch_size >= 1], offers that
    bring the batch to [save_batch_size - 1] records issue no write and
    leave every record in the batch; the next offer, its writes returning,
    issues exactly one [save_batch], of the whole batch, then hands the
    accumulated failed-index list (empty or not) to
    [save_failed_indices] at the worker's own path, and leaves both the
    batch and the list empty. *)
Theorem batch_flush_threshold rs s r st :
  1 <= save_batch_size ->
  Z.of_nat (length (batch st) + length rs) = save_batch_size - 1 ->
  returns s ->
  offer_all C process_id save_dir save_batch_size rs st
  = (Returns tt, mkState (batch st ++ map snd rs) (failed_indices st) (trace st)) /\
  offer_all C process_id save_dir save_batch_size (rs ++ [(s, r)]) st
  = (Returns tt,
     mkState [] []
       (trace st ++ [SaveBatch (batch st ++ map snd rs ++ [r]);
                     SaveFailedIndices path (failed_indices st)])).
Proof.
  intros Hsize Hlen Hw. revert st Hlen.
  induction rs as [|[s0 r0] rs IH]; intros st Hlen; simpl in *.
  - unfold bind, ret. rewrite offer_flush by (auto; lia).
    rewrite app_nil_r. destruct st; auto.
  - unfold bind. rewrite offer_below by lia.
    destruct (IH (mkState (batch st ++ [r0]) (failed_indices st) (trace st))) as [H1 H2].
    { simpl. rewrite length_app. simpl. lia. }
    unfold bind in *. simpl in *. rewrite H1, H2. rewrite <- !app_assoc. auto.
Qed.

(** C5 -- drain on exit.  When the writes of the drain return, the worker
    returns, and after the loop it does exactly this, in this order: one
    [save_batch] of the residual batch if it is not empty, one
    [save_failed_indices] of the residual failed-index list if it is not
    empty, and [writer.close()], which did not run before. *)
Theorem drain_on_exit subset :
  returns Drain ->
  let st := after_items C process_id save_dir save_batch_size sample_rate
                        max_retries speaker format subset in
  closed (trace st) = false /\
  worker subset
  = (Returns tt,
     mkState (batch st) (failed_indices st)
       (trace st
        ++ (if bool_decide (batch st <> []) then [SaveBatch (batch st)] else [])
        ++ (if bool_decide (failed_indices st <> [])
            then [SaveFailedIndices path (failed_indices st)] else [])
        ++ [WriterClose])).
Proof.
  intros Hd st. split; [apply closed_after_items|].
  unfold process_and_save_text. now apply drain_returns.
Qed.

(** C10 -- a write that raises in the drain.  The loop over the items
    returns whatever the collaborators do; when a write of the drain
    raises, the exception leaves [process_and_save_text] and
    [writer.close()] has not run. *)
Theorem drain_failure_propagates subset e :
  drain_fails C process_id save_dir
    (after_items C process_id save_dir save_batch_size sample_rate
                 max_retries speaker format subset) e ->
  exists final,
    worker subset = (Raises e, final) /\ closed (trace final) = false.
Proof.
  intros Hf. apply drain_fails_raises in Hf as (final & Hdr & Hcl).
  exists final. split; [exact Hdr|]. rewrite Hcl. apply closed_after_items.
Qed.

(** ** Further facts about the worker *)

Lemma flushes_app tr1 tr2 : flushes (tr1 ++ tr2) = flushes tr1 ++ flushes tr2.
Proof. apply flat_map_app. Qed.

Lemma logged_errors_app tr1 tr2 :
  logged_errors (tr1 ++ tr2) = logged_errors tr1 ++ logged_errors tr2.
Proof. apply flat_map_app. Qed.

(** What one attempt leaves untouched, and what it does to the batch when
    its writes return. *)
Lemma attempt_detail pos a text index st res st' :
  attempt pos a text index st = (res, st') ->
  logged_errors (trace st') = logged_errors (trace st) /\
  (returns (InLoop pos a) ->
   (res = Returns tt /\
    ((Z.of_nat (length (batch st)) + 1 < save_batch_size /\
      length (batch st') = S (length (batch st)) /\
      flushes (trace st') = flushes (trace st)) \/
     (save_batch_size <= Z.of_nat (length (batch st)) + 1 /\
      batch st' = [] /\
      exists b, length b = S (length (batch st)) /\
                flushes (trace st') = flushes (trace st) ++ [b]))) \/
   (exists e, res = Raises e) /\ batch st' = batch st /\
   flushes (trace st') = flushes (trace st)).
Proof.
  unfold attempt_body, convert, offer, bind, invoke, commit, emit, ret,
    get_batch, set_batch, get_failed, set_failed, write_returns; simpl.
  destruct (convert_text_to_audio C pos a text speaker) as [audio|e]; simpl.
  2:{ intros [= <- <-]. simpl. rewrite logged_errors_app, flushes_app. simpl.
      rewrite !app_nil_r. split; [reflexivity|]. intros _. right. eauto. }
  destruct (process_single_audio C pos a audio sample_rate) as [toks|e]; simpl.
  2:{ intros [= <- <-]. simpl. rewrite !logged_errors_app, !flushes_app. simpl.
      rewrite !app_nil_r. split; [reflexivity|]. intros _. right. eauto. }
  rewrite length_app. simpl.
  destruct (Z.of_nat (length (batch st) + 1) >=? save_batch_size) eqn:Hge; simpl.
  - rewrite Z.geb_leb in Hge. apply Z.leb_le in Hge.
    destruct (save_batch C (InLoop pos a) _) as [[]|e] eqn:Hb; simpl.
    2:{ intros [= <- <-]. simpl. rewrite !logged_errors_app. simpl.
        rewrite !app_nil_r. split; [reflexivity|].
        intros [Hw _]. rewrite Hw in Hb. discriminate. }
    destruct (save_failed_indices C (InLoop pos a) _ _) as [[]|e] eqn:Hf; simpl.
    2:{ intros [= <- <-]. simpl. rewrite !logged_errors_app. simpl.
        rewrite !app_nil_r. split; [reflexivity|].
        intros [_ Hw]. rewrite Hw in Hf. discriminate. }
    intros [= <- <-]. simpl. rewrite !logged_errors_app, !flushes_app. simpl.
    rewrite !app_nil_r. split; [reflexivity|]. intros _. left.
    split; [reflexivity|]. right. split; [lia|]. split; [reflexivity|].
    eexists. split; [|reflexivity]. rewrite length_app. simpl. lia.
  - rewrite Z.geb_leb in Hge. apply Z.leb_gt in Hge.
    intros [= <- <-]. simpl. rewrite !logged_errors_app, !flushes_app. simpl.
    rewrite !app_nil_r. split; [reflexivity|]. intros _. left.
    split; [reflexivity|]. left. rewrite length_app. simpl. split; [lia|].
    split; [lia|reflexivity].
Qed.

(** What the drain adds to the trace, whatever its writes do. *)
Lemma drain_shape st res st' :
  drain1 st = (res, st') ->
  batch st' = batch st /\ failed_indices st' = failed_indices st /\
  exists wb wf cl,
    trace st' = trace st ++ wb ++ wf ++ cl /\
    (wb = [] \/ wb = [SaveBatch (batch st)]) /\
    (wf = [] \/ wf = [SaveFailedIndices path (failed_indices st)]) /\
    (cl = [] \/ cl = [WriterClose]).
Proof.
  unfold drain, bind, commit, emit, ret, get_batch, get_failed; simpl.
  destruct (bool_decide (batch st <> [])); simpl;
    [destruct (save_batch C Drain (batch st)) as [[]|e1]; simpl|];
    try (destruct (bool_decide (failed_indices st <> [])); simpl;
         [destruct (save_failed_indices C Drain _ _) as [[]|e2]; simpl|]);
    intros [= <- <-]; simpl; (split; [reflexivity|]); (split; [reflexivity|]).
  - exists [SaveBatch (batch st)], [SaveFailedIndices path (failed_indices st)], [WriterClose].
    rewrite <- !app_assoc. auto.
  - exists [SaveBatch (batch st)], [], []. auto.
  - exists [SaveBatch (batch st)], [], [WriterClose]. rewrite <- !app_assoc. auto.
  - exists [], [], []. rewrite !app_nil_r. auto.
  - exists [], [SaveFailedIndices path (failed_indices st)], [WriterClose].
    rewrite <- !app_assoc. auto.
  - exists [], [], []. rewrite !app_nil_r. auto.
  - exists [], [], [WriterClose]. auto.
Qed.

Lemma drain_quiet st res st' :
  drain1 st = (res, st') ->
  attempts (trace st') = attempts (trace st) /\
  increments (trace st') = increments (trace st) /\
  logged_errors (trace st') = logged_errors (trace st) /\
  exists extra,
    written (trace st') = written (trace st) ++ extra /\
    (extra = [] \/ extra = batch st) /\
    exists extra',
      persisted_failed (trace st') = persisted_failed (trace st) ++ extra' /\
      (extra' = [] \/ extra' = failed_indices st).
Proof.
  intros Hd. apply drain_shape in Hd
    as (_ & _ & wb & wf & cl & -> & Hwb & Hwf & Hcl).
  rewrite !attempts_app, !increments_app, !logged_errors_app, !written_app,
    !persisted_failed_app.
  split; [destruct Hwb as [-> | ->], Hwf as [-> | ->], Hcl as [-> | ->]; simpl; lia|].
  split; [destruct Hwb as [-> | ->], Hwf as [-> | ->], Hcl as [-> | ->]; simpl; lia|].
  split; [destruct Hwb as [-> | ->], Hwf as [-> | ->], Hcl as [-> | ->]; simpl;
          now rewrite ?app_nil_r|].
  exists (written wb ++ written wf ++ written cl). split; [reflexivity|].
  split; [destruct Hwb as [-> | ->], Hwf as [-> | ->], Hcl as [-> | ->]; simpl;
          rewrite ?app_nil_r; auto|].
  exists (persisted_failed wb ++ persisted_failed wf ++ persisted_failed cl).
  split; [reflexivity|].
  destruct Hwb as [-> | ->], Hwf as [-> | ->], Hcl as [-> | ->]; simpl;
    rewrite ?app_nil_r; auto.
Qed.

(** The failed-index list and the error log grow together. *)
Lemma retry_errors pos text index remaining :
  forall a st,
    recorded_failed st = logged_errors (trace st) ->
    let st' := retry pos text index remaining a st in
    recorded_failed st' = logged_errors (trace st').
Proof.
  induction remaining as [|n IH]; intros a st Hinv; simpl; [exact Hinv|].
  destruct (attempt pos a text index st) as [res st1] eqn:Hatt.
  pose proof Hatt as Hatt'.
  apply attempt_effect in Hatt as (Hrf & _).
  apply attempt_detail in Hatt' as (Hle & _).
  destruct res as [[]|e]; [congruence|].
  rewrite handle_effect. simpl. apply IH.
  destruct (Z.of_nat a =? max_retries - 1); unfold recorded_failed in *; simpl;
    rewrite logged_errors_app, persisted_failed_app; simpl;
    rewrite ?app_nil_r, ?app_assoc; congruence.
Qed.

Lemma items_errors l : forall pos st,
  recorded_failed st = logged_errors (trace st) ->
  recorded_failed (items pos l st) = logged_errors (trace (items pos l st)).
Proof.
  induction l as [|[text index] l IH]; intros pos st Hinv; simpl; [exact Hinv|].
  apply IH. unfold process_item. simpl. now apply retry_errors.
Qed.

(** With the writes of its attempts returning and [max_retries >= 1], an
    item ends in exactly one of two ways: one record produced and one
    increment, or its index recorded as failed. *)
Lemma retry_settles pos text index remaining :
  forall a st,
    (forall a', returns (InLoop pos a')) ->
    (a + remaining)%nat = Z.to_nat max_retries ->
    (1 <= remaining)%nat ->
    let st' := retry pos text index remaining a st in
    (exists r, rec_index r = index /\
               produced st' = produced st ++ [r] /\
               recorded_failed st' = recorded_failed st /\
               increments (trace st') = S (increments (trace st))) \/
    (produced st' = produced st /\
     recorded_failed st' = recorded_failed st ++ [index] /\
     increments (trace st') = increments (trace st)).
Proof.
  induction remaining as [|n IH]; intros a st Hw Hsum Hpos; [lia|]. simpl.
  destruct (attempt pos a text index st) as [res st1] eqn:Hatt.
  apply attempt_effect in Hatt as (Hrf & _ & _ & Hconv).
  destruct (conv pos a text index) as [r|e].
  - destruct Hconv as (Hi & Hp & Hinc & Hres). rewrite (Hres (Hw a)) in *.
    left. exists r. rewrite Hinc. repeat split; auto. lia.
  - destruct Hconv as (-> & Hb & Hfi & Hwr & Hpf & Hinc).
    rewrite handle_effect. simpl.
    assert (Hp1 : produced st1 = produced st) by (unfold produced; congruence).
    destruct (Z.of_nat a =? max_retries - 1) eqn:Hlast.
    + assert (n = 0%nat) as -> by lia. simpl. right.
      unfold produced, recorded_failed in *. simpl.
      rewrite written_app, persisted_failed_app, increments_app. simpl.
      rewrite !app_nil_r, Nat.add_0_r, Hwr, Hb, Hpf, Hfi, Hinc.
      now rewrite app_assoc.
    + set (st2 := mkState _ _ _).
      assert (Hst2 : produced st2 = produced st /\
                     recorded_failed st2 = recorded_failed st /\
                     increments (trace st2) = increments (trace st)).
      { subst st2. unfold produced, recorded_failed in *. simpl.
        rewrite written_app, persisted_failed_app, increments_app. simpl.
        rewrite !app_nil_r, Nat.add_0_r. repeat split; congruence. }
      destruct Hst2 as (Hp2 & Hf2 & Hi2).
      destruct (IH (S a) st2 Hw) as [(r & Hr & Hp & Hf & Hi) | (Hp & Hf & Hi)];
        try lia.
      * left. exists r. rewrite Hp, Hf, Hi, Hp2, Hf2, Hi2. auto.
      * right. rewrite Hp, Hf, Hi, Hp2, Hf2, Hi2. auto.
Qed.

Lemma items_settles l : forall pos st,
  (forall p a, returns (InLoop p a)) ->
  1 <= max_retries ->
  let st' := items pos l st in
  exists recs fails,
    produced st' = produced st ++ recs /\
    recorded_failed st' = recorded_failed st ++ fails /\
    map rec_index recs `sublist_of` map snd l /\
    fails `sublist_of` map snd l /\
    map rec_index recs ++ fails ≡ₚ map snd l /\
    increments (trace st') = (increments (trace st) + length recs)%nat.
Proof.
  intros pos st Hw Hmax. revert pos st.
  induction l as [|[text index] l IH]; intros pos st; simpl.
  - exists [], []. rewrite !app_nil_r. repeat split; auto; lia.
  - unfold process_item. simpl.
    destruct (IH (S pos) (retry pos text index (Z.to_nat max_retries) 0%nat st))
      as (recs & fails & Hp & Hf & Hs1 & Hs2 & Hperm & Hinc).
    destruct (retry_settles pos text index (Z.to_nat max_retries) 0%nat st)
      as [(r & Hr & Hp1 & Hf1 & Hi1) | (Hp1 & Hf1 & Hi1)]; auto; try lia.
    + exists (r :: recs), fails. rewrite Hp, Hf, Hinc, Hp1, Hf1, Hi1, <- app_assoc.
      simpl. rewrite Hr. repeat split; auto; try lia;
        try (now apply sublist_skip); try (now apply sublist_cons);
        try (now apply Permutation_skip).
    + exists recs, (index :: fails). rewrite Hp, Hf, Hinc, Hp1, Hf1, Hi1, <- app_assoc.
      simpl. repeat split; auto; try lia;
        try (now apply sublist_skip); try (now apply sublist_cons).
      rewrite <- Permutation_middle. now apply Permutation_skip.
Qed.

Lemma retry_bounded pos text index remaining :
  forall a st,
    (forall a', returns (InLoop pos a')) ->
    batch_bounded save_batch_size st ->
    batch_bounded save_batch_size (retry pos text index remaining a st).
Proof.
  induction remaining as [|n IH]; intros a st Hw [Hlen Hfl]; simpl; [now split|].
  destruct (attempt pos a text index st) as [res st1] eqn:Hatt.
  apply attempt_detail in Hatt as (_ & Hdet).
  destruct (Hdet (Hw a)) as [(-> & [(Hlt & Hl1 & Hf1) | (Hge & Hb1 & b & Hb & Hf1)])
                            | ((e & ->) & Hb1 & Hf1)].
  - split; [lia|]. now rewrite Hf1.
  - split; [rewrite Hb1; simpl; lia|]. rewrite Hf1. apply Forall_app. split; [exact Hfl|].
    constructor; [lia|constructor].
  - rewrite handle_effect. simpl. apply IH; [exact Hw|].
    destruct (Z.of_nat a =? max_retries - 1); split; simpl;
      rewrite ?flushes_app; simpl; rewrite ?app_nil_r; congruence.
Qed.

Lemma items_bounded l : forall pos st,
  (forall p a, returns (InLoop p a)) ->
  batch_bounded save_batch_size st ->
  batch_bounded save_batch_size (items pos l st).
Proof.
  induction l as [|[text index] l IH]; intros pos st Hw Hinv; simpl; [exact Hinv|].
  apply IH; [exact Hw|]. unfold process_item. simpl. now apply retry_bounded.
Qed.

Lemma items_attempts l : forall pos st,
  (attempts (trace (items pos l st))
   <= attempts (trace st) + length l * Z.to_nat max_retries)%nat.
Proof.
  induction l as [|[text index] l IH]; intros pos st; simpl; [lia|].
  specialize (IH (S pos) (item1 pos (text, index) st)).
  unfold process_item in *. simpl in *.
  destruct (retry_grows pos text index (Z.to_nat max_retries) 0%nat st)
    as (_ & _ & _ & _ & _ & _ & _ & Hat & _).
  lia.
Qed.

Lemma zipped_length subset : length (zipped subset) = length subset.
Proof. rewrite zipped_map. apply length_map. Qed.

Lemma after_beyond subset p :
  (length subset <= p)%nat -> after subset p = before subset p.
Proof.
  intros Hp. unfold state_after, state_before.
  pose proof (zipped_length subset) as Hlen.
  rewrite !take_ge by lia. reflexivity.
Qed.

Lemma step_grows subset p :
  exists recs fails,
    produced (after subset p) = produced (before subset p) ++ recs /\
    recorded_failed (after subset p) = recorded_failed (before subset p) ++ fails /\
    (increments (trace (before subset p)) <= increments (trace (after subset p))
     <= increments (trace (before subset p)) + 1)%nat /\
    (attempts (trace (before subset p)) <= attempts (trace (after subset p))
     <= attempts (trace (before subset p)) + Z.to_nat max_retries)%nat.
Proof.
  destruct (subset !! p) as [row|] eqn:Hp.
  - rewrite (after_before _ _ _ Hp). unfold process_item. simpl.
    destruct (retry_grows p (row_prompt row) (row_index row) (Z.to_nat max_retries)
                0%nat (before subset p))
      as (recs & fails & Hpr & _ & Hf & _ & Hinc & Hat & _).
    exists recs, fails. repeat split; auto; lia.
  - apply lookup_ge_None in Hp. rewrite (after_beyond _ _ Hp).
    exists [], []. rewrite !app_nil_r. repeat split; auto; lia.
Qed.

(** ** Further properties of the worker *)

(** X1 -- no item lost, none duplicated.  When every write returns and
    [max_retries >= 1], the worker returns, each index of the chunk is
    either the index of exactly one record of the output or one of the
    persisted failed indices, and the counter was incremented once per
    record written. *)
Theorem every_item_is_settled_once subset :
  (forall s, returns s) ->
  1 <= max_retries ->
  exists final,
    worker subset = (Returns tt, final) /\
    map rec_index (written (trace final)) ++ persisted_failed (trace final)
    ≡ₚ batch_index subset /\
    increments (trace final) = length (written (trace final)).
Proof.
  intros Hw Hmax. unfold process_and_save_text, after_items.
  destruct (items_settles (zipped subset) 0%nat (init_state process_id save_dir format))
    as (recs & fails & Hp & Hf & _ & _ & Hperm & Hinc); auto.
  rewrite zipped_indices in Hperm. simpl in Hp, Hf, Hinc.
  destruct (drain1 _) as [res final] eqn:Hd.
  pose proof Hd as Hd'. rewrite (drain_returns _ (Hw Drain)) in Hd'.
  injection Hd' as <- _.
  pose proof Hd as Hq. apply drain_quiet in Hq as (_ & Hi & _).
  apply drain_effect in Hd as (Hwr & Hpf & _).
  exists final. split; [reflexivity|].
  rewrite Hwr, Hpf, Hp, Hf, Hi, Hinc. split; [exact Hperm|]. reflexivity.
Qed.

(** X2 -- the order of the chunk is kept.  When the writes of the loop
    return and [max_retries >= 1], the indices of the records written and
    the failed indices persisted each follow the order of the chunk,
    however the drain ends. *)
Theorem chunk_order_is_kept subset :
  (forall p a, returns (InLoop p a)) ->
  1 <= max_retries ->
  map rec_index (written (trace (snd (worker subset)))) `sublist_of` batch_index subset /\
  persisted_failed (trace (snd (worker subset))) `sublist_of` batch_index subset.
Proof.
  intros Hw Hmax. unfold process_and_save_text, after_items.
  destruct (items_settles (zipped subset) 0%nat (init_state process_id save_dir format))
    as (recs & fails & Hp & Hf & Hs1 & Hs2 & _); auto.
  rewrite zipped_indices in Hs1, Hs2. simpl in Hp, Hf.
  destruct (drain1 _) as [res final] eqn:Hd. simpl.
  apply drain_quiet in Hd as (_ & _ & _ & ex & Hwr & Hex & ex' & Hpf & Hex').
  unfold produced in Hp. unfold recorded_failed in Hf.
  split.
  - rewrite Hwr. destruct Hex as [-> | ->].
    + rewrite app_nil_r. etransitivity; [|exact Hs1]. rewrite <- Hp, map_app.
      apply sublist_inserts_r. reflexivity.
    + now rewrite Hp.
  - rewrite Hpf. destruct Hex' as [-> | ->].
    + rewrite app_nil_r. etransitivity; [|exact Hs2]. rewrite <- Hf.
      apply sublist_inserts_r. reflexivity.
    + now rewrite Hf.
Qed.

(** X3 -- the batch is bounded.  When the writes of the loop return, at
    every point between two items the batch holds fewer than
    [save_batch_size] records, and every flush made so far wrote exactly
    [save_batch_size] records. *)
Theorem batch_stays_below_threshold subset p :
  (forall q a, returns (InLoop q a)) ->
  1 <= save_batch_size ->
  batch_bounded save_batch_size (before subset p).
Proof.
  intros Hw Hsize. unfold state_before. apply items_bounded; [exact Hw|].
  split; simpl; [lia|constructor].
Qed.

(** X4 -- bounds that hold in every run.  Whatever the collaborators do,
    handling one item makes at most [max_retries] attempts and increments
    the counter at most once; over the whole chunk the counter is
    incremented at most once per item and at most
    [len(chunk) * max_retries] attempts are made. *)
Theorem attempts_and_increments_are_bounded subset :
  (forall p,
     (attempts (trace (after subset p))
      <= attempts (trace (before subset p)) + Z.to_nat max_retries)%nat /\
     (increments (trace (before subset p)) <= increments (trace (after subset p))
      <= increments (trace (before subset p)) + 1)%nat) /\
  (increments (trace (snd (worker subset))) <= length subset)%nat /\
  (attempts (trace (snd (worker subset))) <= length subset * Z.to_nat max_retries)%nat.
Proof.
  split; [|split].
  - intros p. destruct (step_grows subset p) as (_ & _ & _ & _ & Hinc & Hat). lia.
  - unfold process_and_save_text, after_items.
    destruct (items_grows (zipped subset) 0%nat (init_state process_id save_dir format))
      as (_ & _ & _ & _ & _ & _ & Hinc & _).
    destruct (drain1 _) as [res final] eqn:Hd. simpl.
    apply drain_quiet in Hd as (_ & Hi & _). rewrite Hi.
    rewrite zipped_length in Hinc. simpl in Hinc. lia.
  - unfold process_and_save_text, after_items.
    pose proof (items_attempts (zipped subset) 0%nat
                  (init_state process_id save_dir format)) as Hat.
    destruct (drain1 _) as [res final] eqn:Hd. simpl.
    apply drain_quiet in Hd as (Ha & _). rewrite Ha.
    rewrite zipped_length in Hat. simpl in Hat. lia.
Qed.

Lemma items_skipped l : forall pos st, max_retries <= 0 -> items pos l st = st.
Proof.
  induction l as [|item l IH]; intros pos st Hmax; simpl; [reflexivity|].
  rewrite IH by assumption. unfold process_item.
  replace (Z.to_nat max_retries) with 0%nat by lia. reflexivity.
Qed.

(** X5 -- no attempt allowed.  With [max_retries <= 0] the loop over the
    attempts is empty: every item of the chunk is skipped without a call
    to a stage, a record, a failed index or a log, and the worker only
    opens and closes its writer. *)
Theorem no_retries_no_processing subset :
  max_retries <= 0 ->
  worker subset
  = (Returns tt,
     mkState [] [] [WriterOpen (file_path process_id save_dir) format; WriterClose]).
Proof.
  intros Hmax. unfold process_and_save_text, after_items.
  rewrite items_skipped by assumption. reflexivity.
Qed.

(** X6 -- nothing is written for an index the chunk does not hold.
    Whatever the collaborators do and however the run ends, every record
    in the output and every persisted failed index carries an index of
    the chunk. *)
Theorem output_indices_come_from_the_chunk subset :
  Forall (fun r => rec_index r ∈ batch_index subset)
         (written (trace (snd (worker subset)))) /\
  Forall (fun i => i ∈ batch_index subset)
         (persisted_failed (trace (snd (worker subset)))).
Proof.
  unfold process_and_save_text, after_items.
  destruct (items_grows (zipped subset) 0%nat (init_state process_id save_dir format))
    as (recs & fails & Hp & Hr & Hf & Hff & _).
  rewrite zipped_indices in Hr, Hff. simpl in Hp, Hf.
  unfold produced in Hp. unfold recorded_failed in Hf.
  destruct (drain1 _) as [res final] eqn:Hd. simpl.
  apply drain_quiet in Hd as (_ & _ & _ & ex & Hwr & Hex & ex' & Hpf & Hex').
  rewrite <- Hp in Hr. rewrite <- Hf in Hff.
  apply Forall_app in Hr as [Hr1 Hr2]. apply Forall_app in Hff as [Hf1 Hf2].
  rewrite Hwr, Hpf. split; apply Forall_app; split; auto.
  - destruct Hex as [-> | ->]; [constructor|exact Hr2].
  - destruct Hex' as [-> | ->]; [constructor|exact Hf2].
Qed.

(** X7 -- the failed-index output agrees with the error log.  In every
    run the persisted failed indices are, in order, the first indices
    logged at line 116; when the worker returns they are all of them. *)
Theorem failed_output_matches_error_log subset :
  persisted_failed (trace (snd (worker subset)))
  `prefix_of` logged_errors (trace (snd (worker subset))) /\
  (fst (worker subset) = Returns tt ->
   persisted_failed (trace (snd (worker subset)))
   = logged_errors (trace (snd (worker subset)))).
Proof.
  unfold process_and_save_text, after_items.
  pose proof (items_errors (zipped subset) 0%nat
                (init_state process_id save_dir format) eq_refl) as Hinv.
  destruct (drain1 _) as [res final] eqn:Hd. simpl.
  pose proof Hd as Hq.
  apply drain_quiet in Hq as (_ & _ & Hle & _ & _ & _ & ex' & Hpf & Hex').
  rewrite Hle, <- Hinv. split.
  - rewrite Hpf. unfold recorded_failed. destruct Hex' as [-> | ->].
    + rewrite app_nil_r. now apply prefix_app_r.
    + reflexivity.
  - intros ->. apply drain_effect in Hd as (_ & -> & _). reflexivity.
Qed.

(** X8 -- no record is dropped from memory.  Whatever the collaborators
    do, handling an item only appends to the records produced so far
    (those written followed by those in the batch) and to the failed
    indices recorded so far; and what the output holds when the run ends
    is a prefix of what was produced. *)
Theorem produced_records_are_never_dropped subset :
  (forall p,
     produced (before subset p) `prefix_of` produced (after subset p) /\
     recorded_failed (before subset p) `prefix_of` recorded_failed (after subset p)) /\
  written (trace (snd (worker subset)))
  `prefix_of` produced (after_items C process_id save_dir save_batch_size sample_rate
                                    max_retries speaker format subset).
Proof.
  split.
  - intros p. destruct (step_grows subset p) as (recs & fails & -> & -> & _).
    split; now apply prefix_app_r.
  - unfold process_and_save_text.
    destruct (drain1 _) as [res final] eqn:Hd. simpl.
    apply drain_quiet in Hd as (_ & _ & _ & ex & -> & Hex & _).
    unfold produced. destruct Hex as [-> | ->].
    + rewrite app_nil_r. now apply prefix_app_r.
    + reflexivity.
Qed.

(** ** The files of a worker *)

Lemma list_ascii_of_append s t :
  String.list_ascii_of_string (s +:+ t)
  = String.list_ascii_of_string s ++ String.list_ascii_of_string t.
Proof. induction s as [|c s IH]; simpl; [reflexivity|]. now rewrite IH. Qed.

Lemma append_inv_tail s1 s2 t : s1 +:+ t = s2 +:+ t -> s1 = s2.
Proof.
  intros Heq. apply (f_equal String.list_ascii_of_string) in Heq.
  rewrite !list_ascii_of_append in Heq. apply app_inv_tail in Heq.
  rewrite <- (String.string_of_list_ascii_of_string s1),
          <- (String.string_of_list_ascii_of_string s2).
  now rewrite Heq.
Qed.

Lemma path_join_inj a b1 b2 : path_join a b1 = path_join a b2 -> b1 = b2.
Proof.
  unfold path_join. destruct (bool_decide (a = EmptyString)); [auto|].
  destruct (ends_with_slash a); intros Heq.
  - now apply (inj (String.append a)) in Heq.
  - apply (inj (String.append a)) in Heq. now apply (inj (String.append "/")) in Heq.
Qed.

(** X9 -- the files of a worker are its own.  In one save directory, two
    workers with different identifiers have different output paths and
    different failed-index paths, and no output path is a failed-index
    path. *)
Theorem worker_files_are_private dir (i j : Z) :
  i <> j ->
  file_path i dir <> file_path j dir /\
  saved_failed_indice_path i dir <> saved_failed_indice_path j dir /\
  file_path i dir <> saved_failed_indice_path j dir /\
  file_path i dir <> saved_failed_indice_path i dir.
Proof.
  intros Hne. unfold file_path, saved_failed_indice_path. repeat split.
  - intros Heq. apply path_join_inj in Heq.
    apply (inj (String.append "audio_tokens_")) in Heq.
    now apply (inj pretty) in Heq.
  - intros Heq. apply path_join_inj in Heq.
    apply (inj (String.append "failed_indices_")) in Heq.
    apply append_inv_tail in Heq. now apply (inj pretty) in Heq.
  - intros Heq. apply path_join_inj in Heq. discriminate.
  - intros Heq. apply path_join_inj in Heq. discriminate.
Qed.

(** Whatever the collaborators do, with [max_retries >= 1] an item ends
    with one increment or with its index recorded as failed, never
    both. *)
Lemma retry_counts pos text index remaining :
  forall a st,
    (a + remaining)%nat = Z.to_nat max_retries ->
    (1 <= remaining)%nat ->
    let st' := retry pos text index remaining a st in
    (increments (trace st') = S (increments (trace st)) /\
     recorded_failed st' = recorded_failed st) \/
    (increments (trace st') = increments (trace st) /\
     recorded_failed st' = recorded_failed st ++ [index]).
Proof.
  induction remaining as [|n IH]; intros a st Hsum Hpos; [lia|]. simpl.
  destruct (attempt pos a text index st) as [res st1] eqn:Hatt.
  apply attempt_effect in Hatt as (Hrf & _ & _ & Hconv).
  assert (Hinc : increments (trace st1)
                 = (increments (trace st)
                    + match res with Returns _ => 1 | Raises _ => 0 end)%nat).
  { destruct (conv pos a text index) as [r|e].
    - tauto.
    - destruct Hconv as (-> & _ & _ & _ & _ & ->). lia. }
  destruct res as [[]|e].
  - left. split; [lia|exact Hrf].
  - rewrite handle_effect. simpl.
    destruct (Z.of_nat a =? max_retries - 1) eqn:Hlast.
    + assert (n = 0%nat) as -> by lia. simpl. right.
      unfold recorded_failed in *. simpl.
      rewrite persisted_failed_app, increments_app. simpl.
      rewrite app_nil_r, <- Hrf, app_assoc. split; [lia|reflexivity].
    + set (st2 := mkState _ _ _).
      assert (Hst2 : recorded_failed st2 = recorded_failed st /\
                     increments (trace st2) = increments (trace st)).
      { subst st2. unfold recorded_failed in *. simpl.
        rewrite persisted_failed_app, increments_app. simpl.
        rewrite app_nil_r. split; [congruence|lia]. }
      destruct Hst2 as (Hf2 & Hi2).
      destruct (IH (S a) st2) as [(Hi & Hf) | (Hi & Hf)]; try lia.
      * left. rewrite Hi, Hf, Hf2, Hi2. auto.
      * right. rewrite Hi, Hf, Hf2, Hi2. auto.
Qed.

Lemma items_counts l : forall pos st,
  1 <= max_retries ->
  (increments (trace (items pos l st)) + length (recorded_failed (items pos l st))
   = increments (trace st) + length (recorded_failed st) + length l)%nat.
Proof.
  induction l as [|[text index] l IH]; intros pos st Hmax; simpl; [lia|].
  rewrite IH by assumption. unfold process_item. simpl.
  destruct (retry_counts pos text index (Z.to_nat max_retries) 0%nat st)
    as [(Hi & Hf) | (Hi & Hf)]; try lia;
    rewrite Hi, Hf, ?length_app; simpl; lia.
Qed.

(** X14 -- every item is counted or logged as failed.  With
    [max_retries >= 1], whatever the collaborators do and however the run
    ends, the number of increments of the counter plus the number of
    indices logged at line 116 is the number of items of the chunk: no
    item is both counted and failed, and none is neither. *)
Theorem every_item_is_counted_or_failed subset :
  1 <= max_retries ->
  (increments (trace (snd (worker subset)))
   + length (logged_errors (trace (snd (worker subset)))))%nat
  = length subset.
Proof.
  intros Hmax. unfold process_and_save_text, after_items.
  pose proof (items_counts (zipped subset) 0%nat
                (init_state process_id save_dir format) Hmax) as Hc.
  pose proof (items_errors (zipped subset) 0%nat
                (init_state process_id save_dir format) eq_refl) as Hinv.
  destruct (drain1 _) as [res final] eqn:Hd. simpl.
  apply drain_quiet in Hd as (_ & Hi & Hle & _).
  rewrite Hi, Hle, <- Hinv. rewrite zipped_length in Hc. simpl in Hc. lia.
Qed.

End WorkerFacts.

(** * Facts about the orchestrator *)

Arguments starts !tr /.
Arguments joins !tr /.
Arguments chunk_requests !tr /.
Arguments uploads !tr /.
Arguments imports !tr /.
Arguments made_dirs !tr /.

Lemma starts_app tr1 tr2 : starts (tr1 ++ tr2) = starts tr1 ++ starts tr2.
Proof. apply flat_map_app. Qed.

Lemma joins_app tr1 tr2 : joins (tr1 ++ tr2) = joins tr1 ++ joins tr2.
Proof. apply flat_map_app. Qed.

Lemma chunk_requests_app tr1 tr2 :
  chunk_requests (tr1 ++ tr2) = chunk_requests tr1 ++ chunk_requests tr2.
Proof. apply flat_map_app. Qed.

Lemma uploads_app tr1 tr2 : uploads (tr1 ++ tr2) = uploads tr1 ++ uploads tr2.
Proof. apply flat_map_app. Qed.

Lemma imports_app tr1 tr2 : imports (tr1 ++ tr2) = imports tr1 ++ imports tr2.
Proof. apply flat_map_app. Qed.

Lemma made_dirs_app tr1 tr2 : made_dirs (tr1 ++ tr2) = made_dirs tr1 ++ made_dirs tr2.
Proof. apply flat_map_app. Qed.

#[local] Hint Rewrite starts_app joins_app chunk_requests_app uploads_app imports_app
  made_dirs_app : obs.

(** A branch that raises before any worker is started. *)
Ltac raised_early :=
  intros [= <- <-]; obs;
  split; [reflexivity|]; split; [reflexivity|];
  split; [rewrite ?length_app; simpl; lia|];
  exists []; rewrite app_nil_r;
  split; [reflexivity|]; split; [intros ? [=] | constructor].

Section OrchestratorFacts.

Variable H : Host.

(** ** The configuration *)

Lemma lookup_keys_missing (d : gmap string value) keys :
  (exists key, key ∈ keys /\ d !! key = None) ->
  exists key, key ∈ keys /\ d !! key = None /\
              lookup_keys (VDict d) keys = Raises (KeyError key).
Proof.
  induction keys as [|k keys IH]; intros (key & Hin & Hnone).
  - inversion Hin.
  - simpl. destruct (d !! k) as [v|] eqn:Hk.
    + destruct IH as (key' & Hin' & Hnone' & Hraise).
      { exists key. split; [|exact Hnone].
        apply elem_of_cons in Hin as [->|Hin]; [congruence|exact Hin]. }
      exists key'. rewrite Hraise. repeat split; auto. now right.
    + exists k. repeat split; auto. left.
Qed.

Lemma lookup_keys_returns config keys vs :
  lookup_keys config keys = Returns vs ->
  Forall2 (fun key v => subscript config key = Returns v) keys vs.
Proof.
  revert vs. induction keys as [|k keys IH]; intros vs; simpl.
  - intros [= <-]. constructor.
  - destruct (subscript config k) as [v|e] eqn:Hk; [|discriminate].
    destruct (lookup_keys config keys) as [vs'|e]; [|discriminate].
    intros [= <-]. constructor; auto.
Qed.

Lemma lookup_keys_dict (d : gmap string value) keys vs :
  Forall2 (fun key v => d !! key = Some v) keys vs ->
  lookup_keys (VDict d) keys = Returns vs.
Proof.
  induction 1 as [|k v keys vs Hk _ IH]; simpl; [reflexivity|].
  now rewrite Hk, IH.
Qed.

(** ** Starting the workers *)

Lemma start_workers_effect devices sd sbs sr mr spk fmt chunks :
  forall i tr res tr',
    start_workers devices sd sbs sr mr spk fmt i chunks tr = (res, tr') ->
    joins tr' = joins tr /\ uploads tr' = uploads tr /\
    chunk_requests tr' = chunk_requests tr /\ imports tr' = imports tr /\
    made_dirs tr' = made_dirs tr /\
    exists ws,
      starts tr' = starts tr ++ ws /\
      Forall (fun w => w_speaker w = spk) ws /\
      forall ps, res = Returns ps -> ps = map w_process_id ws.
Proof.
  induction chunks as [|chunk chunks IH]; intros i tr res tr'; simpl.
  - unfold ret. intros [= <- <-]. repeat split; auto.
    exists []. rewrite app_nil_r. repeat split; auto. now intros ps [= <-].
  - unfold bind, lift, log, ret.
    destruct (len devices) as [n|e]; simpl.
    2:{ intros [= <- <-]. repeat split; auto. exists []. rewrite app_nil_r.
        repeat split; auto. intros ps [=]. }
    destruct (bool_decide (n = 0%nat)); simpl.
    { intros [= <- <-]. repeat split; auto. exists []. rewrite app_nil_r.
      repeat split; auto. intros ps [=]. }
    destruct (item_at devices (i mod n)) as [device|e]; simpl.
    2:{ intros [= <- <-]. repeat split; auto. exists []. rewrite app_nil_r.
        repeat split; auto. intros ps [=]. }
    destruct (start_workers devices sd sbs sr mr spk fmt (S i) chunks _)
      as [res1 tr1] eqn:Hrec.
    apply IH in Hrec as (Hj & Hu & Hc & Hi & Hm & ws & Hs & Hspk & Hps).
    autorewrite with obs in *. simpl in *. rewrite !app_nil_r in *.
    destruct res1 as [ps|e]; intros [= <- <-]; repeat split; auto.
    + eexists (_ :: ws). rewrite Hs, <- app_assoc. simpl.
      repeat split; auto. intros ps' [= <-]. simpl. now rewrite (Hps ps).
    + eexists (_ :: ws). rewrite Hs, <- app_assoc. simpl.
      repeat split; auto. intros ps' [=].
Qed.

Lemma start_workers_list devs sd sbs sr mr spk fmt chunks :
  devs <> [] ->
  forall i tr,
    exists ws,
      start_workers (VList devs) sd sbs sr mr spk fmt i chunks tr
      = (Returns (seq i (length chunks)), tr ++ map ProcessStart ws) /\
      length ws = length chunks /\
      forall j chunk,
        chunks !! j = Some chunk ->
        exists device,
          devs !! ((i + j) mod length devs)%nat = Some device /\
          ws !! j = Some (mkArgs chunk device (i + j) sd sbs sr mr spk fmt).
Proof.
  intros Hne. induction chunks as [|chunk chunks IH]; intros i tr; simpl.
  - exists []. unfold ret. rewrite app_nil_r. repeat split; auto.
    intros j c Hj. discriminate.
  - assert (Hlen : length devs <> 0%nat) by (destruct devs; simpl; congruence).
    assert (Hlt : (i mod length devs < length devs)%nat) by (apply Nat.mod_upper_bound; lia).
    destruct (lookup_lt_is_Some_2 devs _ Hlt) as [device Hdev].
    unfold bind, lift, log, ret. simpl.
    rewrite bool_decide_eq_false_2 by assumption. simpl. rewrite Hdev. simpl.
    destruct (IH (S i) (tr ++ [ProcessStart (mkArgs chunk device i sd sbs sr mr spk fmt)]))
      as (ws & Heq & Hl & Hws).
    unfold bind, lift, log, ret in Heq. rewrite Heq.
    exists (mkArgs chunk device i sd sbs sr mr spk fmt :: ws).
    rewrite <- app_assoc. simpl. repeat split; auto.
    intros [|j] c Hj; simpl in *.
    + injection Hj as <-. exists device. rewrite Nat.add_0_r. auto.
    + destruct (Hws j c Hj) as (dv & Hd & Hw).
      exists dv. replace (i + S j)%nat with (S i + j)%nat by lia. auto.
Qed.

(** ** Polling and joining *)

Lemma poll_effect procs : forall fuel round tr res tr',
  poll H fuel round procs tr = (res, tr') ->
  starts tr' = starts tr /\ joins tr' = joins tr /\ uploads tr' = uploads tr /\
  chunk_requests tr' = chunk_requests tr /\ imports tr' = imports tr /\
  made_dirs tr' = made_dirs tr /\
  exists b, res = Returns b.
Proof.
  induction fuel as [|fuel IH]; intros round tr res tr'; simpl.
  - unfold ret. intros [= <- <-]. repeat split; eauto.
  - destruct (existsb (is_alive H round) procs).
    + unfold bind, log. intros Hp. apply IH in Hp.
      autorewrite with obs in Hp. simpl in Hp. rewrite !app_nil_r in Hp. exact Hp.
    + unfold ret. intros [= <- <-]. repeat split; eauto.
Qed.

Lemma poll_rounds procs n : forall fuel round tr,
  (forall k, (k < n)%nat -> existsb (is_alive H (round + k)) procs = true) ->
  existsb (is_alive H (round + n)) procs = false ->
  (n < fuel)%nat ->
  poll H fuel round procs tr
  = (Returns true,
     tr ++ flat_map (fun k => [LogProcessed (count_at H k); Sleep 60]) (seq round n)).
Proof.
  induction n as [|n IH]; intros fuel round tr Halive Hdead Hfuel;
    (destruct fuel as [|fuel]; [lia|]); simpl.
  - rewrite Nat.add_0_r in Hdead. rewrite Hdead. unfold ret. now rewrite app_nil_r.
  - pose proof (Halive 0%nat) as H0. rewrite Nat.add_0_r in H0. rewrite H0 by lia.
    unfold bind, log. rewrite IH.
    + now rewrite <- !app_assoc.
    + intros k Hk. replace (S round + k)%nat with (round + S k)%nat by lia.
      apply Halive. lia.
    + replace (S round + n)%nat with (round + S n)%nat by lia. exact Hdead.
    + lia.
Qed.

Lemma join_all_eq procs : forall tr,
  join_all procs tr = (Returns tt, tr ++ map ProcessJoin procs).
Proof.
  induction procs as [|p procs IH]; intros tr; simpl.
  - unfold ret. now rewrite app_nil_r.
  - unfold bind, log. rewrite IH. now rewrite <- app_assoc.
Qed.

Lemma joins_map_join procs : joins (map ProcessJoin procs) = procs.
Proof. induction procs as [|p procs IH]; simpl; [reflexivity|]. now rewrite IH. Qed.

Lemma starts_map_join procs : starts (map ProcessJoin procs) = [].
Proof. induction procs as [|p procs IH]; simpl; auto. Qed.

Lemma uploads_map_join procs : uploads (map ProcessJoin procs) = [].
Proof. induction procs as [|p procs IH]; simpl; auto. Qed.

Lemma imports_map_join procs : imports (map ProcessJoin procs) = [].
Proof. induction procs as [|p procs IH]; simpl; auto. Qed.

Lemma chunk_requests_map_join procs : chunk_requests (map ProcessJoin procs) = [].
Proof. induction procs as [|p procs IH]; simpl; auto. Qed.

Lemma starts_map_start ws : starts (map ProcessStart ws) = ws.
Proof. induction ws as [|w ws IH]; simpl; [reflexivity|]. now rewrite IH. Qed.

Lemma chunk_requests_map_start ws : chunk_requests (map ProcessStart ws) = [].
Proof. induction ws as [|w ws IH]; simpl; auto. Qed.

(** ** The launch *)

Lemma required_values config vs :
  lookup_keys config required_keys = Returns vs ->
  exists devices nppd sd sbs sr mr spk fmt,
    vs = [devices; nppd; sd; sbs; sr; mr; spk; fmt] /\
    subscript config "devices" = Returns devices /\
    subscript config "num_procs_per_device" = Returns nppd /\
    subscript config "speaker" = Returns spk.
Proof.
  intros Hvs. apply lookup_keys_returns in Hvs. unfold required_keys in Hvs.
  repeat match goal with
         | Hf : Forall2 _ (_ :: _) _ |- _ => inversion Hf; subst; clear Hf
         | Hf : Forall2 _ [] _ |- _ => inversion Hf; subst; clear Hf
         end.
  do 8 eexists. repeat split; eauto.
Qed.

Lemma getattr_speakers_returns spk obj :
  getattr_speakers H spk = Returns obj ->
  exists name, spk = VStr name /\ speakers H !! name = Some obj.
Proof.
  unfold getattr_speakers. destruct spk as [| | |name| |]; try discriminate.
  destruct (speakers H !! name) as [o|] eqn:Hn; [|discriminate].
  intros [= <-]. eauto.
Qed.

(** Whatever the configuration and the collaborators, the launch joins no
    process, uploads nothing, resolves the speaker at most once, and
    every worker it starts is given the object the speaker resolved to. *)
Lemma launch_effect dataset config tr res tr' :
  launch H dataset config tr = (res, tr') ->
  joins tr' = joins tr /\ uploads tr' = uploads tr /\
  (length (imports tr') <= length (imports tr) + 1)%nat /\
  exists ws,
    starts tr' = starts tr ++ ws /\
    (forall ps, res = Returns ps -> ps = map w_process_id ws) /\
    Forall (fun w => exists name,
                subscript config "speaker" = Returns (VStr name) /\
                speakers H !! name = Some (w_speaker w)) ws.
Proof.
  unfold launch, bind, log, lift.
  destruct (lookup_keys config required_keys) as [vs|e] eqn:Hvs.
  2:{ raised_early. }
  destruct (required_values _ _ Hvs)
    as (devices & nppd & sd & sbs & sr & mr & spk & fmt & -> & _ & _ & Hspk).
  unfold perform, lift, log, bind.
  destruct (getattr_speakers H spk) as [obj|e] eqn:Hobj.
  2:{ raised_early. }
  apply getattr_speakers_returns in Hobj as (name & -> & Hname).
  destruct (makedirs H sd) as [[]|e].
  2:{ raised_early. }
  destruct (len devices) as [n|e].
  2:{ raised_early. }
  destruct (int_mul n nppd) as [w|e].
  2:{ raised_early. }
  destruct (create_non_overlapping_chunks H dataset w) as [chunks|e].
  2:{ raised_early. }
  intros Hsw. apply start_workers_effect in Hsw
    as (Hj & Hu & _ & Hi & _ & ws & Hs & Hobj & Hps).
  obs. rewrite Hj, Hu, Hi, Hs.
  split; [reflexivity|]. split; [reflexivity|].
  split; [rewrite ?length_app; simpl; lia|].
  exists ws. split; [reflexivity|]. split; [exact Hps|].
  eapply Forall_impl; [exact Hobj|]. simpl. intros x <-. eauto.
Qed.

(** The launch on a configuration that holds every required key, a
    non-empty list of devices, an integer number of processes per device
    and a speaker the module exports, with collaborators that return. *)
Lemma launch_typed dataset (d : gmap string value)
      devs n sd sbs sr mr name fmt obj chunks :
  Forall2 (fun key v => d !! key = Some v) required_keys
          [VList devs; VInt n; sd; sbs; sr; mr; VStr name; fmt] ->
  speakers H !! name = Some obj ->
  makedirs H sd = Returns tt ->
  create_non_overlapping_chunks H dataset (VInt (Z.of_nat (length devs) * n))
  = Returns chunks ->
  devs <> [] ->
  exists ws,
    launch H dataset (VDict d) []
    = (Returns (seq 0 (length chunks)),
       [PrintConfig (VDict d); ImportModule "speakers"; Makedirs sd;
        LogDatasetSize (length dataset);
        CreateChunks (VInt (Z.of_nat (length devs) * n)); NewCounter]
       ++ map ProcessStart ws) /\
    length ws = length chunks /\
    forall i chunk,
      chunks !! i = Some chunk ->
      exists device,
        devs !! (i mod length devs)%nat = Some device /\
        ws !! i = Some (mkArgs chunk device i sd sbs sr mr obj fmt).
Proof.
  intros Hkeys Hname Hmk Hchunks Hne.
  unfold launch, bind, log, lift, perform.
  rewrite (lookup_keys_dict _ _ _ Hkeys). simpl.
  rewrite Hname, Hmk. simpl. rewrite Hchunks.
  destruct (start_workers_list devs sd sbs sr mr obj fmt chunks Hne 0%nat
              [PrintConfig (VDict d); ImportModule "speakers"; Makedirs sd;
               LogDatasetSize (length dataset);
               CreateChunks (VInt (Z.of_nat (length devs) * n)); NewCounter])
    as (ws & Heq & Hlen & Hws).
  exists ws. split; [exact Heq|]. split; [exact Hlen|]. exact Hws.
Qed.

Lemma poll_still procs : forall fuel round tr,
  (forall k, (k < fuel)%nat -> existsb (is_alive H (round + k)) procs = true) ->
  poll H fuel round procs tr
  = (Returns false,
     tr ++ flat_map (fun k => [LogProcessed (count_at H k); Sleep 60]) (seq round fuel)).
Proof.
  induction fuel as [|fuel IH]; intros round tr Halive; simpl.
  - unfold ret. now rewrite app_nil_r.
  - pose proof (Halive 0%nat) as H0. rewrite Nat.add_0_r in H0. rewrite H0 by lia.
    unfold bind, log. rewrite IH.
    + now rewrite <- !app_assoc.
    + intros k Hk. replace (S round + k)%nat with (round + S k)%nat by lia.
      apply Halive. lia.
Qed.

(** ** The whole of [run_pipeline] and [main] *)

Lemma run_pipeline_effect fuel dataset config tr res tr' :
  run_pipeline H fuel dataset config tr = (res, tr') ->
  uploads tr' = uploads tr /\
  (length (imports tr') <= length (imports tr) + 1)%nat /\
  exists ws,
    starts tr' = starts tr ++ ws /\
    Forall (fun w => exists name,
                subscript config "speaker" = Returns (VStr name) /\
                speakers H !! name = Some (w_speaker w)) ws /\
    match res with
    | Returns Finished =>
        exists pre,
          tr' = pre ++ [LogAllFinished; LogFinalCount (final_count H)] /\
          joins pre = joins tr ++ map w_process_id ws /\
          starts pre = starts tr ++ ws /\
          uploads pre = uploads tr
    | _ => joins tr' = joins tr
    end.
Proof.
  unfold run_pipeline, bind.
  destruct (launch H dataset config tr) as [[procs|e] tr1] eqn:Hl;
    apply launch_effect in Hl as (Hj & Hu & Hi & ws & Hs & Hps & Hobj).
  2:{ intros [= <- <-]. split; [exact Hu|]. split; [exact Hi|]. exists ws. auto. }
  rewrite (Hps procs eq_refl).
  destruct (poll H fuel 0 (map w_process_id ws) tr1) as [res2 tr2] eqn:Hp.
  apply poll_effect in Hp as (Hs2 & Hj2 & Hu2 & _ & Hi2 & _ & b & ->).
  destruct b.
  - rewrite join_all_eq. unfold log, ret. simpl. intros [= <- <-].
    obs. rewrite uploads_map_join, starts_map_join, imports_map_join, ?app_nil_r.
    rewrite Hu2, Hi2, Hs2, Hu, Hs. split; [reflexivity|]. split; [exact Hi|].
    exists ws. split; [reflexivity|]. split; [exact Hobj|].
    exists (tr2 ++ map ProcessJoin (map w_process_id ws)).
    rewrite <- !app_assoc. split; [reflexivity|].
    obs. rewrite joins_map_join, uploads_map_join, starts_map_join, ?app_nil_r.
    rewrite Hj2, Hj, Hs2, Hs, Hu2, Hu. auto.
  - unfold ret. intros [= <- <-].
    rewrite Hu2, Hi2, Hs2, Hu, Hs, Hj2, Hj. split; [reflexivity|]. split; [exact Hi|].
    exists ws. auto.
Qed.

Lemma prepare_effect path tr res tr' :
  prepare H path tr = (res, tr') ->
  starts tr' = starts tr /\ joins tr' = joins tr /\ uploads tr' = uploads tr /\
  forall config pipeline_config dataset,
    res = Returns (config, pipeline_config, dataset) ->
    load_config H path = Returns config.
Proof.
  unfold prepare, bind, perform, log, lift, ret.
  repeat (match goal with
          | |- context [match ?r with Returns _ => _ | Raises _ => _ end] =>
              destruct r eqn:?
          | |- context [if ?b then _ else _] => destruct b eqn:?
          end; simpl);
    intros [= <- <-]; obs; repeat split; auto; congruence.
Qed.

Lemma handoff_effect config tr res tr' :
  handoff H config tr = (res, tr') ->
  (tr' = tr \/ tr' = tr ++ [LogUploading] \/
   exists a b c d, tr' = tr ++ [LogUploading; UploadFolderToS3 a b c d]) /\
  (tr' = tr \/ exists v, subscript config "upload_to_s3" = Returns v /\ truthy v = true).
Proof.
  unfold handoff, bind, perform, log, lift, ret.
  destruct (subscript config "upload_to_s3") as [v|e]; [|intros [= <- <-]; auto].
  destruct (truthy v) eqn:Hv; [|intros [= <- <-]; auto].
  repeat (match goal with
          | |- context [match ?r with Returns _ => _ | Raises _ => _ end] =>
              destruct r eqn:?
          end; simpl);
    intros [= <- <-]; rewrite <- ?app_assoc; simpl; split; eauto 10.
Qed.

(** ** The claims about the orchestrator *)

(** C6 -- worker count and round-robin assignment.  On a configuration
    that holds the eight keys, with a non-empty list of devices, an
    integer [num_procs_per_device] and a speaker the module exports, and
    with [os.makedirs] and the chunker returning: the chunker is asked
    once, for [len(devices) * num_procs_per_device] chunks; one process is
    started per chunk it returns, in order; and the process of chunk [i]
    is given that chunk, the identifier [i] and the device
    [devices[i mod len(devices)]]. *)
Theorem round_robin_assignment fuel dataset (d : gmap string value)
        devs n sd sbs sr mr name fmt obj chunks :
  Forall2 (fun key v => d !! key = Some v) required_keys
          [VList devs; VInt n; sd; sbs; sr; mr; VStr name; fmt] ->
  speakers H !! name = Some obj ->
  makedirs H sd = Returns tt ->
  create_non_overlapping_chunks H dataset (VInt (Z.of_nat (length devs) * n))
  = Returns chunks ->
  devs <> [] ->
  exists res tr,
    run_pipeline H fuel dataset (VDict d) [] = (res, tr) /\
    chunk_requests tr = [VInt (Z.of_nat (length devs) * n)] /\
    length (starts tr) = length chunks /\
    forall i chunk,
      chunks !! i = Some chunk ->
      exists device,
        devs !! (i mod length devs)%nat = Some device /\
        starts tr !! i = Some (mkArgs chunk device i sd sbs sr mr obj fmt).
Proof.
  intros Hkeys Hname Hmk Hchunks Hne.
  destruct (launch_typed dataset d devs n sd sbs sr mr name fmt obj chunks
              Hkeys Hname Hmk Hchunks Hne) as (ws & Hl & Hlen & Hws).
  unfold run_pipeline, bind. rewrite Hl.
  destruct (poll H fuel 0 (seq 0 (length chunks)) _) as [res2 tr2] eqn:Hp.
  apply poll_effect in Hp as (Hs2 & _ & _ & Hc2 & _ & _ & b & ->).
  autorewrite with obs in Hs2, Hc2. simpl in Hs2, Hc2.
  rewrite starts_map_start in Hs2. rewrite chunk_requests_map_start in Hc2.
  destruct b.
  - rewrite join_all_eq. unfold log, ret. simpl. do 2 eexists. split; [reflexivity|].
    obs. rewrite starts_map_join, chunk_requests_map_join, ?app_nil_r, Hs2, Hc2.
    auto.
  - unfold ret. do 2 eexists. split; [reflexivity|]. rewrite Hs2, Hc2. auto.
Qed.

(** C7 -- a missing required key.  When the configuration lacks one of
    the eight keys, [run_pipeline] raises [KeyError] for the first of
    them that is absent, having done nothing but print the configuration:
    no directory is created, no chunk requested, no worker started. *)
Theorem missing_key_is_fatal_at_start fuel dataset (d : gmap string value) key :
  key ∈ required_keys ->
  d !! key = None ->
  exists k,
    k ∈ required_keys /\ d !! k = None /\
    run_pipeline H fuel dataset (VDict d) [] = (Raises (KeyError k), [PrintConfig (VDict d)]).
Proof.
  intros Hin Hnone.
  destruct (lookup_keys_missing d required_keys) as (k & Hk & Hd & Hraise); [eauto|].
  exists k. split; [exact Hk|]. split; [exact Hd|].
  unfold run_pipeline, launch, bind, log, lift. now rewrite Hraise.
Qed.

(** C9 -- a speaker the module does not export.  When the value under
    ["speaker"] does not name an attribute of the [speakers] module,
    [run_pipeline] raises having at most printed the configuration and
    imported the module: no directory is created, no chunk requested, no
    worker started.  And in every run the speaker is resolved at most
    once, by the orchestrator, each worker being given the resolved
    object. *)
Theorem unknown_speaker_is_fatal_at_start fuel dataset config :
  (forall name, subscript config "speaker" = Returns (VStr name) ->
                speakers H !! name = None) ->
  (exists e tr,
     run_pipeline H fuel dataset config [] = (Raises e, tr) /\
     (tr = [PrintConfig config] \/ tr = [PrintConfig config; ImportModule "speakers"]) /\
     made_dirs tr = [] /\ chunk_requests tr = [] /\ starts tr = []) /\
  (forall config' res tr,
     run_pipeline H fuel dataset config' [] = (res, tr) ->
     (length (imports tr) <= 1)%nat /\
     Forall (fun w => exists name,
                 subscript config' "speaker" = Returns (VStr name) /\
                 speakers H !! name = Some (w_speaker w)) (starts tr)).
Proof.
  intros Hunknown. split.
  - unfold run_pipeline, launch, bind, log, lift.
    destruct (lookup_keys config required_keys) as [vs|e] eqn:Hvs; [|eauto 10].
    destruct (required_values _ _ Hvs)
      as (devices & nppd & sd & sbs & sr & mr & spk & fmt & -> & _ & _ & Hspk).
    unfold perform, bind. simpl.
    destruct (getattr_speakers H spk) as [obj|e] eqn:Hobj; [|eauto 10].
    apply getattr_speakers_returns in Hobj as (name & -> & Hname).
    rewrite (Hunknown _ Hspk) in Hname. discriminate.
  - intros config' res tr Hrun.
    apply run_pipeline_effect in Hrun as (_ & Hi & ws & Hs & Hobj & _).
    simpl in *. rewrite Hs. split; [lia|exact Hobj].
Qed.

(** C8 -- polling, join, final count and upload.  While some worker is
    alive the orchestrator logs the counter and sleeps 60, once per
    round; at the first round [n] in which none is alive it joins every
    process it started, logs that all have finished and logs the final
    count, in this order; before that round it has joined nothing.  In
    every run of [main], [upload_folder_to_s3] is called at most once,
    only when ["upload_to_s3"] is set, and then as the last thing, after
    the final count, every started process having been joined. *)
Theorem progress_polling_join_and_upload :
  (forall fuel dataset config procs tr1 n,
     launch H dataset config [] = (Returns procs, tr1) ->
     (forall k, (k < n)%nat -> existsb (is_alive H k) procs = true) ->
     existsb (is_alive H n) procs = false ->
     ((n < fuel)%nat ->
      run_pipeline H fuel dataset config []
      = (Returns Finished,
         tr1 ++ polling_log H n ++ map ProcessJoin procs
             ++ [LogAllFinished; LogFinalCount (final_count H)])) /\
     ((fuel <= n)%nat ->
      run_pipeline H fuel dataset config []
      = (Returns StillPolling, tr1 ++ polling_log H fuel))) /\
  (forall fuel path res tr,
     main H fuel path [] = (res, tr) ->
     (length (uploads tr) <= 1)%nat /\
     (uploads tr <> [] ->
      exists config v pre a b c d,
        load_config H path = Returns config /\
        subscript config "upload_to_s3" = Returns v /\ truthy v = true /\
        tr = pre ++ [LogAllFinished; LogFinalCount (final_count H);
                     LogUploading; UploadFolderToS3 a b c d] /\
        uploads pre = [] /\
        joins pre = map w_process_id (starts pre))).
Proof.
  split.
  - intros fuel dataset config procs tr1 n Hl Halive Hdead. split; intros Hfuel.
    + unfold run_pipeline, bind. rewrite Hl.
      rewrite (poll_rounds procs n); auto.
      rewrite join_all_eq. unfold log, ret, polling_log. simpl.
      now rewrite <- !app_assoc.
    + unfold run_pipeline, bind. rewrite Hl.
      rewrite poll_still; [reflexivity|].
      intros k Hk. apply Halive. lia.
  - intros fuel path res tr. unfold main, bind.
    destruct (prepare H path []) as [[[[config pc] ds]|e] tr0] eqn:Hprep;
      apply prepare_effect in Hprep as (Hs0 & Hj0 & Hu0 & Hcfg); simpl in *.
    2:{ intros [= <- <-]. rewrite Hu0. simpl. split; [lia|congruence]. }
    specialize (Hcfg _ _ _ eq_refl).
    destruct (run_pipeline H fuel ds pc tr0) as [[st|e] tr1] eqn:Hrun;
      apply run_pipeline_effect in Hrun as (Hu1 & _ & ws & Hs1 & _ & Hfin).
    2:{ intros [= <- <-]. rewrite Hu1, Hu0. simpl. split; [lia|congruence]. }
    destruct st.
    2:{ unfold ret. intros [= <- <-]. rewrite Hu1, Hu0. simpl. split; [lia|congruence]. }
    destruct Hfin as (pre & -> & Hjp & Hsp & Hup).
    rewrite Hu0 in Hup. rewrite Hs0 in Hsp. rewrite Hj0 in Hjp. simpl in *.
    destruct (handoff H config _) as [r2 tr2] eqn:Hh.
    apply handoff_effect in Hh as (Hshape & Hset).
    intros Heq.
    assert (Htr : tr = tr2) by (destruct r2; unfold ret in Heq; congruence).
    subst tr. clear Heq.
    destruct Hshape as [-> | [-> | (a & b & c & d & ->)]].
    + obs. rewrite Hup. simpl. split; [lia|congruence].
    + obs. rewrite Hup. simpl. split; [lia|congruence].
    + split.
      * obs. rewrite Hup. simpl. lia.
      * intros _. destruct Hset as [Heq | (v & Hv & Ht)].
        { exfalso. apply (f_equal (@length oevent)) in Heq.
          rewrite !length_app in Heq. simpl in Heq. lia. }
        exists config, v, pre, a, b, c, d.
        rewrite <- !app_assoc. simpl. rewrite Hsp, Hjp. auto 10.
Qed.

(** ** Further facts about the orchestrator *)

(** What each started worker is given, whatever [devices] is. *)
Lemma start_workers_args devices sd sbs sr mr spk fmt chunks :
  forall i tr res tr',
    start_workers devices sd sbs sr mr spk fmt i chunks tr = (res, tr') ->
    exists ws,
      tr' = tr ++ map ProcessStart ws /\
      map w_process_id ws = seq i (length ws) /\
      map w_chunk ws = take (length ws) chunks /\
      Forall (fun w =>
                w_save_dir w = sd /\ w_save_batch_size w = sbs /\
                w_sample_rate w = sr /\ w_max_retries w = mr /\
                w_speaker w = spk /\ w_format w = fmt /\
                exists n, len devices = Returns n /\ n <> 0%nat /\
                          item_at devices (w_process_id w mod n)%nat
                          = Returns (w_device w)) ws /\
      (forall ps, res = Returns ps -> length ws = length chunks) /\
      (forall e, res = Raises e -> (length ws < length chunks)%nat).
Proof.
  destruct (len devices) as [n|e0] eqn:Hlen.
  2:{ intros i tr res tr'. destruct chunks as [|chunk chunks]; simpl.
      - unfold ret. intros [= <- <-]. exists []. simpl. rewrite app_nil_r.
        repeat split; auto. intros e [=].
      - unfold bind, lift. rewrite Hlen. intros [= <- <-]. exists []. simpl.
        rewrite app_nil_r. repeat split; auto; try lia. intros ps [=]. }
  induction chunks as [|chunk chunks IH]; intros i tr res tr'; simpl.
  - unfold ret. intros [= <- <-]. exists []. simpl. rewrite app_nil_r.
    repeat split; auto. intros e [=].
  - unfold bind, lift, log, ret. rewrite Hlen. simpl.
    destruct (bool_decide (n = 0%nat)) eqn:Hn; simpl.
    { intros [= <- <-]. exists []. simpl. rewrite app_nil_r.
      repeat split; auto; try lia. intros ps [=]. }
    apply bool_decide_eq_false in Hn.
    destruct (item_at devices (i mod n)) as [device|e] eqn:Hdev; simpl.
    2:{ intros [= <- <-]. exists []. simpl. rewrite app_nil_r.
        repeat split; auto; try lia. intros ps [=]. }
    destruct (start_workers devices sd sbs sr mr spk fmt (S i) chunks _)
      as [res1 tr1] eqn:Hrec.
    apply IH in Hrec as (ws & -> & Hids & Hch & Hall & Hret & Hraise).
    set (w := mkArgs chunk device i sd sbs sr mr spk fmt).
    assert (Hw : Forall (fun w =>
                w_save_dir w = sd /\ w_save_batch_size w = sbs /\
                w_sample_rate w = sr /\ w_max_retries w = mr /\
                w_speaker w = spk /\ w_format w = fmt /\
                exists n0, Returns n = Returns n0 /\ n0 <> 0%nat /\
                           item_at devices (w_process_id w mod n0)%nat
                           = Returns (w_device w)) (w :: ws)).
    { constructor; [|exact Hall]. simpl. repeat split; auto. eauto. }
    destruct res1 as [ps|e]; intros [= <- <-]; exists (w :: ws);
      rewrite <- app_assoc; simpl; rewrite Hids, Hch;
      (split; [reflexivity|]); (split; [reflexivity|]); (split; [reflexivity|]);
      (split; [exact Hw|]); split.
    + intros ps' _. now rewrite (Hret ps).
    + intros e [=].
    + intros ps' [=].
    + intros e' _. specialize (Hraise e eq_refl). lia.
Qed.

Lemma required_values_all config vs :
  lookup_keys config required_keys = Returns vs ->
  exists devices nppd sd sbs sr mr spk fmt,
    vs = [devices; nppd; sd; sbs; sr; mr; spk; fmt] /\
    subscript config "devices" = Returns devices /\
    subscript config "num_procs_per_device" = Returns nppd /\
    subscript config "save_dir" = Returns sd /\
    subscript config "save_batch_size" = Returns sbs /\
    subscript config "sample_rate" = Returns sr /\
    subscript config "max_retries" = Returns mr /\
    subscript config "speaker" = Returns spk /\
    subscript config "format" = Returns fmt.
Proof.
  intros Hvs. apply lookup_keys_returns in Hvs. unfold required_keys in Hvs.
  repeat match goal with
         | Hf : Forall2 _ (_ :: _) _ |- _ => inversion Hf; subst; clear Hf
         | Hf : Forall2 _ [] _ |- _ => inversion Hf; subst; clear Hf
         end.
  do 8 eexists. repeat split; eauto.
Qed.

(** The trace of the launch: nothing started, or the six steps of the
    set-up followed by the starts. *)
Lemma launch_shape dataset config res tr :
  launch H dataset config [] = (res, tr) ->
  exists ws,
    starts tr = ws /\
    (forall ps, res = Returns ps -> ps = map w_process_id ws) /\
    map w_process_id ws = seq 0 (length ws) /\
    Forall (given_from H config) ws /\
    (ws = [] \/
     exists sd nw,
       tr = [PrintConfig config; ImportModule "speakers"; Makedirs sd;
             LogDatasetSize (length dataset); CreateChunks nw; NewCounter]
            ++ map ProcessStart ws).
Proof.
  unfold launch, bind, log, lift.
  destruct (lookup_keys config required_keys) as [vs|e] eqn:Hvs.
  2:{ intros [= <- <-]. exists []. simpl. repeat split; auto. intros ps [=]. }
  destruct (required_values_all _ _ Hvs)
    as (devices & nppd & sd & sbs & sr & mr & spk & fmt & -> &
        Hdev & _ & Hsd & Hsbs & Hsr & Hmr & Hspk & Hfmt).
  unfold perform, lift, log, bind. simpl.
  destruct (getattr_speakers H spk) as [obj|e] eqn:Hobj.
  2:{ intros [= <- <-]. exists []. simpl. repeat split; auto. intros ps [=]. }
  apply getattr_speakers_returns in Hobj as (name & -> & Hname).
  destruct (makedirs H sd) as [[]|e].
  2:{ intros [= <- <-]. exists []. simpl. repeat split; auto. intros ps [=]. }
  destruct (len devices) as [n|e].
  2:{ intros [= <- <-]. exists []. simpl. repeat split; auto. intros ps [=]. }
  destruct (int_mul n nppd) as [nw|e].
  2:{ intros [= <- <-]. exists []. simpl. repeat split; auto. intros ps [=]. }
  destruct (create_non_overlapping_chunks H dataset nw) as [chunks|e].
  2:{ intros [= <- <-]. exists []. simpl. repeat split; auto. intros ps [=]. }
  intros Hsw. pose proof Hsw as Hsw'.
  apply start_workers_args in Hsw as (ws & -> & Hids & _ & Hall & _ & _).
  apply start_workers_effect in Hsw' as (_ & _ & _ & _ & _ & ws' & Hs & _ & Hps).
  rewrite starts_app, starts_map_start in Hs. simpl in Hs.
  subst ws'.
  exists ws. rewrite starts_app, starts_map_start. simpl.
  split; [reflexivity|]. split; [exact Hps|]. split; [exact Hids|].
  split.
  - eapply Forall_impl; [exact Hall|]. simpl.
    intros w (H1 & H2 & H3 & H4 & H5 & H6 & n' & Hn & Hne & Hit).
    unfold given_from. rewrite H1, H2, H3, H4, H5, H6.
    split; [exact Hsd|]. split; [exact Hsbs|]. split; [exact Hsr|].
    split; [exact Hmr|]. split; [exact Hfmt|]. split; [eauto|].
    exists devices, n'. auto.
  - right. eauto.
Qed.

Lemma poll_frame procs : forall fuel round tr res tr',
  poll H fuel round procs tr = (res, tr') ->
  exists d, tr' = tr ++ d /\ starts d = [].
Proof.
  induction fuel as [|fuel IH]; intros round tr res tr'; simpl.
  - unfold ret. intros [= <- <-]. exists []. now rewrite app_nil_r.
  - destruct (existsb (is_alive H round) procs).
    + unfold bind, log. intros Hp. apply IH in Hp as (d & -> & Hd).
      exists ([LogProcessed (count_at H round); Sleep 60] ++ d).
      rewrite <- !app_assoc. simpl. auto.
    + unfold ret. intros [= <- <-]. exists []. now rewrite app_nil_r.
Qed.

Lemma run_pipeline_shape fuel dataset config :
  exists rest,
    starts (snd (run_pipeline H fuel dataset config [])) 
    = starts (snd (launch H dataset config [])) /\
    snd (run_pipeline H fuel dataset config [])
    = snd (launch H dataset config []) ++ rest /\
    starts rest = [].
Proof.
  unfold run_pipeline, bind.
  destruct (launch H dataset config []) as [[procs|e] tr1] eqn:Hl; simpl.
  2:{ exists []. rewrite app_nil_r. auto. }
  destruct (poll H fuel 0 procs tr1) as [res2 tr2] eqn:Hp.
  pose proof Hp as Hp'. apply poll_frame in Hp as (d & -> & Hd).
  apply poll_effect in Hp' as (_ & _ & _ & _ & _ & _ & b & ->).
  destruct b.
  - rewrite join_all_eq. unfold log, ret. simpl.
    exists (d ++ map ProcessJoin procs ++ [LogAllFinished; LogFinalCount (final_count H)]).
    rewrite <- !app_assoc. rewrite !starts_app, Hd, starts_map_join. simpl.
    rewrite !app_nil_r. auto.
  - unfold ret. simpl. exists d. rewrite starts_app, Hd, app_nil_r. auto.
Qed.

(** ** Further properties of the orchestrator *)

(** X10 -- what every started worker is given.  In every run, whatever
    the configuration holds, the workers started have the identifiers
    0, 1, 2, ... in start order, and each is given the values under
    ["save_dir"], ["save_batch_size"], ["sample_rate"], ["max_retries"]
    and ["format"], the object the speaker resolved to, and as device
    [devices[i mod len(devices)]] for its identifier [i], under
    Python's [len] and indexing ([devices] may be a list or a string). *)
Theorem started_workers_carry_the_configuration fuel dataset config :
  map w_process_id (starts (snd (run_pipeline H fuel dataset config [])))
  = seq 0 (length (starts (snd (run_pipeline H fuel dataset config [])))) /\
  Forall (given_from H config) (starts (snd (run_pipeline H fuel dataset config []))).
Proof.
  destruct (run_pipeline_shape fuel dataset config) as (rest & -> & _).
  destruct (launch_shape dataset config (fst (launch H dataset config []))
              (snd (launch H dataset config [])))
    as (ws & -> & _ & Hids & Hall & _); [apply surjective_pairing|].
  split; assumption.
Qed.

(** X11 -- no worker before the set-up.  In every run that starts a
    worker, the trace begins with the print of the configuration, the
    import of [speakers], [os.makedirs], the log of the dataset size, the
    request for chunks and the creation of the counter, in this order;
    the starts follow, and no worker is started after them. *)
Theorem workers_start_after_the_setup fuel dataset config :
  starts (snd (run_pipeline H fuel dataset config [])) <> [] ->
  exists sd nw rest,
    snd (run_pipeline H fuel dataset config [])
    = [PrintConfig config; ImportModule "speakers"; Makedirs sd;
       LogDatasetSize (length dataset); CreateChunks nw; NewCounter]
      ++ map ProcessStart (starts (snd (run_pipeline H fuel dataset config [])))
      ++ rest /\
    starts rest = [].
Proof.
  destruct (run_pipeline_shape fuel dataset config) as (rest & -> & -> & Hrest).
  destruct (launch_shape dataset config (fst (launch H dataset config []))
              (snd (launch H dataset config [])))
    as (ws & Hws & _ & _ & _ & Hshape); [apply surjective_pairing|].
  rewrite Hws. intros Hne. destruct Hshape as [-> | (sd & nw & Htr)]; [congruence|].
  exists sd, nw, rest. rewrite Htr at 1. rewrite <- app_assoc. auto.
Qed.

(** X12 -- an empty list of devices.  With [devices] empty the chunker is
    asked for 0 chunks.  If it returns a chunk all the same, the first
    [i % len(devices)] raises [ZeroDivisionError]: the directory has been
    created and the chunks computed, and no worker is started.  If it
    returns none, [run_pipeline] finishes having started, polled and
    joined nothing. *)
Theorem no_device_no_worker fuel dataset (d : gmap string value)
        n sd sbs sr mr name fmt obj chunks :
  Forall2 (fun key v => d !! key = Some v) required_keys
          [VList []; VInt n; sd; sbs; sr; mr; VStr name; fmt] ->
  speakers H !! name = Some obj ->
  makedirs H sd = Returns tt ->
  create_non_overlapping_chunks H dataset (VInt 0) = Returns chunks ->
  (chunks <> [] ->
   run_pipeline H fuel dataset (VDict d) []
   = (Raises ZeroDivisionError,
      [PrintConfig (VDict d); ImportModule "speakers"; Makedirs sd;
       LogDatasetSize (length dataset); CreateChunks (VInt 0); NewCounter])) /\
  (chunks = [] ->
   run_pipeline H (S fuel) dataset (VDict d) []
   = (Returns Finished,
      [PrintConfig (VDict d); ImportModule "speakers"; Makedirs sd;
       LogDatasetSize (length dataset); CreateChunks (VInt 0); NewCounter;
       LogAllFinished; LogFinalCount (final_count H)])).
Proof.
  intros Hkeys Hname Hmk Hchunks.
  unfold run_pipeline, launch, bind, log, lift, perform.
  rewrite (lookup_keys_dict _ _ _ Hkeys). simpl.
  rewrite Hname, Hmk. simpl. change (Z.of_nat 0 * n) with 0. rewrite Hchunks.
  split; intros Hc.
  - destruct chunks as [|chunk chunks]; [congruence|]. reflexivity.
  - subst chunks. reflexivity.
Qed.


(** X15 -- every started process is joined once, and only at the end.
    In every run of [run_pipeline]: when it returns, the processes joined
    are exactly the processes started, in start order, and the last two
    things it did are the log that all have finished and the log of the
    final count; when it raises or is still polling, no process has been
    joined. *)
Theorem each_started_process_is_joined_once fuel dataset config :
  (fst (run_pipeline H fuel dataset config []) = Returns Finished ->
   exists pre,
     snd (run_pipeline H fuel dataset config [])
     = pre ++ [LogAllFinished; LogFinalCount (final_count H)] /\
     joins pre = map w_process_id (starts pre) /\
     starts pre = starts (snd (run_pipeline H fuel dataset config []))) /\
  (fst (run_pipeline H fuel dataset config []) <> Returns Finished ->
   joins (snd (run_pipeline H fuel dataset config [])) = []).
Proof.
  destruct (run_pipeline H fuel dataset config []) as [res tr] eqn:Hrun. simpl.
  apply run_pipeline_effect in Hrun as (_ & _ & ws & Hs & _ & Hfin). simpl in *.
  split.
  - intros ->. destruct Hfin as (pre & -> & Hj & Hsp & _).
    exists pre. rewrite Hj, Hsp, starts_app. simpl. rewrite app_nil_r. auto.
  - intros Hne. destruct res as [[]|e]; [congruence| |]; exact Hfin.
Qed.

(** ** The preparation in [main] *)

Lemma printed_app tr1 tr2 : printed (tr1 ++ tr2) = printed tr1 ++ printed tr2.
Proof. apply flat_map_app. Qed.

Lemma selections_app tr1 tr2 :
  selections (tr1 ++ tr2) = selections tr1 ++ selections tr2.
Proof. apply flat_map_app. Qed.

Lemma printed_map_start ws : printed (map ProcessStart ws) = [].
Proof. induction ws; simpl; auto. Qed.

Lemma selections_map_start ws : selections (map ProcessStart ws) = [].
Proof. induction ws; simpl; auto. Qed.

Lemma printed_map_join ps : printed (map ProcessJoin ps) = [].
Proof. induction ps; simpl; auto. Qed.

Lemma selections_map_join ps : selections (map ProcessJoin ps) = [].
Proof. induction ps; simpl; auto. Qed.

Lemma poll_quiet procs : forall fuel round tr res tr',
  poll H fuel round procs tr = (res, tr') ->
  printed tr' = printed tr /\ selections tr' = selections tr.
Proof.
  induction fuel as [|fuel IH]; intros round tr res tr'; simpl.
  - unfold ret. intros [= <- <-]. auto.
  - destruct (existsb (is_alive H round) procs).
    + unfold bind, log. intros Hp. apply IH in Hp as [-> ->].
      rewrite !printed_app, !selections_app. simpl. now rewrite !app_nil_r.
    + unfold ret. intros [= <- <-]. auto.
Qed.

(** [run_pipeline] prints the configuration it is given, once, and
    selects nothing. *)
Lemma launch_prints dataset config tr res tr' :
  launch H dataset config tr = (res, tr') ->
  printed tr' = printed tr ++ [config] /\ selections tr' = selections tr.
Proof.
  unfold launch, bind, log, lift.
  destruct (lookup_keys config required_keys) as [vs|e] eqn:Hvs.
  2:{ intros [= <- <-]. rewrite printed_app, selections_app. simpl.
      now rewrite app_nil_r. }
  destruct (required_values_all _ _ Hvs)
    as (devices & nppd & sd & sbs & sr & mr & spk & fmt & -> & _).
  unfold perform, lift, log, bind. simpl.
  repeat (match goal with
          | |- context [match ?r with Returns _ => _ | Raises _ => _ end] =>
              destruct r as [?|?]
          end; simpl);
    try (intros [= <- <-]; rewrite !printed_app, !selections_app; simpl;
         now rewrite !app_nil_r).
  intros Hsw. apply start_workers_args in Hsw as (ws & -> & _).
  rewrite !printed_app, !selections_app, printed_map_start, selections_map_start.
  simpl. now rewrite !app_nil_r.
Qed.

Lemma run_pipeline_prints fuel dataset config tr res tr' :
  run_pipeline H fuel dataset config tr = (res, tr') ->
  printed tr' = printed tr ++ [config] /\ selections tr' = selections tr.
Proof.
  unfold run_pipeline, bind.
  destruct (launch H dataset config tr) as [[procs|e] tr1] eqn:Hl;
    apply launch_prints in Hl as [Hp Hs].
  2:{ intros [= <- <-]. auto. }
  destruct (poll H fuel 0 procs tr1) as [[b|e] tr2] eqn:Hpoll;
    apply poll_quiet in Hpoll as [Hp2 Hs2].
  2:{ intros [= <- <-]. split; congruence. }
  destruct b.
  - rewrite join_all_eq. unfold log, ret. simpl. intros [= <- <-].
    rewrite !printed_app, !selections_app, printed_map_join, selections_map_join.
    simpl. rewrite !app_nil_r. split; congruence.
  - unfold ret. intros [= <- <-]. split; congruence.
Qed.

Lemma handoff_quiet config tr res tr' :
  handoff H config tr = (res, tr') ->
  printed tr' = printed tr /\ selections tr' = selections tr.
Proof.
  intros Hh. apply handoff_effect in Hh as [[-> | [-> | (a & b & c & d & ->)]] _];
    rewrite ?printed_app, ?selections_app; simpl; rewrite ?app_nil_r; auto.
Qed.

(** A branch of the preparation that raises. *)
Ltac stops_early :=
  intros [= <- <-]; split;
  [rewrite ?printed_app; simpl; now rewrite ?app_nil_r | intros ? ? ? [=]].

(** What the preparation hands over: the section of the configuration
    that [test_mode] chooses, after the selections that [test_mode] and
    [remaining_indices_file] ask for, in this order. *)
Lemma prepare_detail path tr res tr' :
  prepare H path tr = (res, tr') ->
  printed tr' = printed tr /\
  forall config pc ds,
    res = Returns (config, pc, ds) ->
    exists tm rem first rest,
      subscript config "test_mode" = Returns tm /\
      subscript config (if truthy tm then "test" else "processing") = Returns pc /\
      subscript2 config "dataset" "remaining_indices_file" = Returns rem /\
      selections tr' = selections tr ++ first ++ rest /\
      (if truthy tm
       then exists n idx, subscript2 config "test" "num_samples" = Returns n /\
                          range n = Returns idx /\ first = [idx]
       else first = []) /\
      (if truthy rem
       then exists idx, json_load H rem = Returns idx /\ rest = [idx]
       else rest = []).
Proof.
  unfold prepare, bind, perform, log, lift, ret.
  destruct (load_config H path) as [config|e]; [|stops_early].
  destruct (subscript2 config "dataset" "name") as [name|e]; simpl;
    [|stops_early].
  destruct (subscript2 config "dataset" "split") as [spl|e]; simpl;
    [|stops_early].
  destruct (load_dataset H name spl) as [ds0|e]; simpl;
    [|stops_early].
  destruct (subscript config "test_mode") as [tm|e] eqn:Htm; simpl;
    [|stops_early].
  destruct (truthy tm) eqn:Htruthy; simpl.
  - destruct (subscript config "test") as [pc|e] eqn:Hpc; simpl;
      [|stops_early].
    destruct (subscript2 config "test" "num_samples") as [n|e] eqn:Hn; simpl;
      [|stops_early].
    destruct (range n) as [idx|e] eqn:Hidx; simpl;
      [|stops_early].
    destruct (select H ds0 idx) as [ds1|e]; simpl;
      [|stops_early].
    destruct (subscript2 config "dataset" "remaining_indices_file") as [rem|e] eqn:Hrem;
      simpl;
      [|stops_early].
    destruct (truthy rem) eqn:Hrt; simpl.
    + destruct (json_load H rem) as [ridx|e] eqn:Hj; simpl;
        [|stops_early].
      destruct (select H ds1 ridx) as [ds2|e]; simpl;
        [|stops_early].
      intros [= <- <-]. split;
        [rewrite !printed_app; simpl; now rewrite !app_nil_r|].
      intros ? ? ? [= <- <- <-]. exists tm, rem, [idx], [ridx].
      rewrite Htruthy, Hrt, !selections_app. simpl. rewrite !app_nil_r.
      rewrite <- !app_assoc. simpl.
      split; [exact Htm|]. split; [exact Hpc|]. split; [exact Hrem|].
      split; [reflexivity|]. split; eauto.
    + intros [= <- <-]. split;
        [rewrite !printed_app; simpl; now rewrite !app_nil_r|].
      intros ? ? ? [= <- <- <-]. exists tm, rem, [idx], [].
      rewrite Htruthy, Hrt, !selections_app. simpl. rewrite !app_nil_r.
      split; [exact Htm|]. split; [exact Hpc|]. split; [exact Hrem|].
      split; [reflexivity|]. split; eauto.
  - destruct (subscript config "processing") as [pc|e] eqn:Hpc; simpl;
      [|stops_early].
    destruct (subscript2 config "dataset" "remaining_indices_file") as [rem|e] eqn:Hrem;
      simpl;
      [|stops_early].
    destruct (truthy rem) eqn:Hrt; simpl.
    + destruct (json_load H rem) as [ridx|e] eqn:Hj; simpl;
        [|stops_early].
      destruct (select H ds0 ridx) as [ds2|e]; simpl;
        [|stops_early].
      intros [= <- <-]. split;
        [rewrite !printed_app; simpl; now rewrite !app_nil_r|].
      intros ? ? ? [= <- <- <-]. exists tm, rem, [], [ridx].
      rewrite Htruthy, Hrt, !selections_app. simpl. rewrite !app_nil_r.
      split; [exact Htm|]. split; [exact Hpc|]. split; [exact Hrem|].
      split; [reflexivity|]. split; eauto.
    + intros [= <- <-]. split;
        [rewrite !printed_app; simpl; now rewrite !app_nil_r|].
      intros ? ? ? [= <- <- <-]. exists tm, rem, [], [].
      rewrite Htruthy, Hrt, !selections_app. simpl. rewrite !app_nil_r.
      split; [exact Htm|]. split; [exact Hpc|]. split; [exact Hrem|].
      split; [reflexivity|]. split; eauto.
Qed.

(** What a run of [main] prints and selects, once [run_pipeline] has
    been entered. *)
Lemma main_detail fuel path :
  printed (snd (main H fuel path [])) = [] \/
  exists config pc tm rem first rest,
    load_config H path = Returns config /\
    subscript config "test_mode" = Returns tm /\
    subscript config (if truthy tm then "test" else "processing") = Returns pc /\
    subscript2 config "dataset" "remaining_indices_file" = Returns rem /\
    printed (snd (main H fuel path [])) = [pc] /\
    selections (snd (main H fuel path [])) = first ++ rest /\
    (if truthy tm
     then exists n idx, subscript2 config "test" "num_samples" = Returns n /\
                        range n = Returns idx /\ first = [idx]
     else first = []) /\
    (if truthy rem
     then exists idx, json_load H rem = Returns idx /\ rest = [idx]
     else rest = []).
Proof.
  unfold main, bind.
  destruct (prepare H path []) as [[[[config pc] ds]|e] tr0] eqn:Hprep.
  2:{ apply prepare_detail in Hprep as [Hp _]. simpl. left. exact Hp. }
  pose proof Hprep as Hload.
  apply prepare_effect in Hload as (_ & _ & _ & Hload).
  specialize (Hload _ _ _ eq_refl).
  apply prepare_detail in Hprep as [Hp0 Hd].
  destruct (Hd _ _ _ eq_refl)
    as (tm & rem & first & rest & Htm & Hpc & Hrem & Hsel & Hfirst & Hrest).
  simpl in Hp0, Hsel. right. exists config, pc, tm, rem, first, rest.
  split; [exact Hload|]. split; [exact Htm|]. split; [exact Hpc|].
  split; [exact Hrem|].
  destruct (run_pipeline H fuel ds pc tr0) as [[st|e1] tr1] eqn:Hrun;
    apply run_pipeline_prints in Hrun as [Hp1 Hs1]; rewrite Hp0 in Hp1; simpl in Hp1.
  2:{ simpl. rewrite Hp1, Hs1, Hsel. auto. }
  destruct st.
  - destruct (handoff H config tr1) as [[[]|e2] tr2] eqn:Hh;
      apply handoff_quiet in Hh as [Hp2 Hs2]; unfold ret; simpl;
      rewrite Hp2, Hs2, Hp1, Hs1, Hsel; auto.
  - unfold ret. simpl. rewrite Hp1, Hs1, Hsel. auto.
Qed.

(** X16 -- the section of the configuration that is used.  In every run
    of [main], [run_pipeline] is entered at most once, and the
    configuration it prints and works from is [config["test"]] when
    [config["test_mode"]] is true and [config["processing"]] when it is
    not. *)
Theorem pipeline_section_follows_test_mode fuel path config tm :
  load_config H path = Returns config ->
  subscript config "test_mode" = Returns tm ->
  printed (snd (main H fuel path [])) = [] \/
  exists pc,
    subscript config (if truthy tm then "test" else "processing") = Returns pc /\
    printed (snd (main H fuel path [])) = [pc].
Proof.
  intros Hload Htm.
  destruct (main_detail fuel path)
    as [Hnone | (config' & pc & tm' & rem & first & rest & Hload' & Htm' & Hpc & _ &
                 Hp & _)]; [left; exact Hnone|].
  rewrite Hload in Hload'. injection Hload' as <-.
  rewrite Htm in Htm'. injection Htm' as <-.
  right. eauto.
Qed.

(** What [main] does once the preparation has returned: it goes on as
    [run_pipeline] does on what it was handed, selects nothing more, and
    reads ["upload_to_s3"] only when [run_pipeline] has finished. *)
Lemma main_after_prepare fuel path config pc ds tr0 :
  prepare H path [] = (Returns (config, pc, ds), tr0) ->
  snd (run_pipeline H fuel ds pc tr0) `prefix_of` snd (main H fuel path []) /\
  selections (snd (main H fuel path [])) = selections tr0 /\
  (forall e, subscript config "upload_to_s3" = Raises e ->
     snd (main H fuel path []) = snd (run_pipeline H fuel ds pc tr0) /\
     (fst (run_pipeline H fuel ds pc tr0) = Returns Finished ->
      fst (main H fuel path []) = Raises e) /\
     (fst (run_pipeline H fuel ds pc tr0) <> Returns Finished ->
      fst (main H fuel path []) = fst (run_pipeline H fuel ds pc tr0))).
Proof.
  intros Hprep. unfold main, bind. rewrite Hprep.
  destruct (run_pipeline H fuel ds pc tr0) as [[st|e1] tr1] eqn:Hrun.
  2:{ apply run_pipeline_prints in Hrun as [_ Hs]. simpl.
      split; [reflexivity|]. split; [exact Hs|]. intros e _.
      split; [reflexivity|]. split; [intros [=]|reflexivity]. }
  apply run_pipeline_prints in Hrun as [_ Hs].
  destruct st.
  - destruct (handoff H config tr1) as [res2 tr2] eqn:Hh. simpl.
    pose proof Hh as Hq. apply handoff_quiet in Hq as [_ Hs2].
    pose proof Hh as Hshape. apply handoff_effect in Hshape as [Hshape _].
    assert (Hpre : tr1 `prefix_of` tr2).
    { destruct Hshape as [-> | [-> | (a & b & c & d & ->)]];
        [reflexivity | now apply prefix_app_r | now apply prefix_app_r]. }
    assert (Hlast : forall e, subscript config "upload_to_s3" = Raises e ->
                              res2 = Raises e /\ tr2 = tr1).
    { intros e Hkey. unfold handoff, bind, lift in Hh. rewrite Hkey in Hh.
      injection Hh as <- <-. auto. }
    destruct res2 as [[]|e2]; unfold ret; simpl.
    + split; [exact Hpre|]. split; [congruence|].
      intros e Hkey. destruct (Hlast e Hkey) as [[=] _].
    + split; [exact Hpre|]. split; [congruence|].
      intros e Hkey. destruct (Hlast e Hkey) as [[= ->] ->].
      split; [reflexivity|]. split; [reflexivity|]. congruence.
  - unfold ret. simpl. split; [reflexivity|]. split; [exact Hs|].
    intros e _. split; [reflexivity|]. split; [congruence|reflexivity].
Qed.

(** X13 -- a configuration without ["upload_to_s3"].  The key is read
    only after [run_pipeline] has returned.  When it is absent, [main]
    never returns normally and never uploads, and in a run in which the
    workers were joined it raises the [KeyError] of that lookup.  The
    absence changes nothing before: whatever the preparation hands over,
    the trace of [main] is the whole trace of [run_pipeline] on it, and
    [main] raises the error of the lookup exactly when [run_pipeline]
    has finished, and ends as [run_pipeline] does otherwise. *)
Theorem missing_upload_key_is_found_last fuel path config e :
  load_config H path = Returns config ->
  subscript config "upload_to_s3" = Raises e ->
  fst (main H fuel path []) <> Returns Finished /\
  uploads (snd (main H fuel path [])) = [] /\
  (joins (snd (main H fuel path [])) <> [] -> fst (main H fuel path []) = Raises e) /\
  (forall pc ds tr0,
     prepare H path [] = (Returns (config, pc, ds), tr0) ->
     snd (main H fuel path []) = snd (run_pipeline H fuel ds pc tr0) /\
     (fst (run_pipeline H fuel ds pc tr0) = Returns Finished ->
      fst (main H fuel path []) = Raises e) /\
     (fst (run_pipeline H fuel ds pc tr0) <> Returns Finished ->
      fst (main H fuel path []) = fst (run_pipeline H fuel ds pc tr0))).
Proof.
  intros Hload Hkey.
  split; [|split; [|split]].
  4:{ intros pc ds tr0 Hprep.
      destruct (main_after_prepare fuel path config pc ds tr0 Hprep) as (_ & _ & Hlast).
      exact (Hlast e Hkey). }
  all: unfold main, bind;
    destruct (prepare H path []) as [[[[config' pc] ds]|e0] tr0] eqn:Hprep;
    apply prepare_effect in Hprep as (_ & Hj0 & Hu0 & Hcfg); simpl in *.
  all: try (rewrite ?Hu0, ?Hj0; congruence).
  all: specialize (Hcfg _ _ _ eq_refl); rewrite Hload in Hcfg; injection Hcfg as <-.
  all: destruct (run_pipeline H fuel ds pc tr0) as [[st|e1] tr1] eqn:Hrun;
    apply run_pipeline_effect in Hrun as (Hu1 & _ & ws & _ & _ & Hfin); simpl.
  all: try (rewrite ?Hu1, ?Hu0, ?Hfin, ?Hj0; congruence).
  all: destruct st.
  all: try (unfold ret; simpl; rewrite ?Hu1, ?Hu0, ?Hfin, ?Hj0; congruence).
  all: destruct Hfin as (pre & -> & _ & _ & Hup);
    unfold handoff, bind, lift; rewrite Hkey; simpl;
    rewrite ?uploads_app, ?Hup, ?Hu0; simpl; congruence.
Qed.

(** X17 -- the order in which the dataset is narrowed.  Let the
    configuration and the dataset load.  In test mode [main] selects
    [range(config["test"]["num_samples"])] from the loaded dataset,
    otherwise it keeps the loaded dataset.  When
    [config["dataset"]["remaining_indices_file"]] is not set, this is the
    dataset [run_pipeline] is entered with.  When it is set, the list
    read from the file is selected next, from the dataset of the first
    step: the remaining indices are positions in the test subset, not in
    the loaded dataset.  [run_pipeline] is entered with the result of
    that second selection; if it raises, [main] raises the same error
    and [run_pipeline] is not entered. *)
Theorem dataset_is_narrowed_in_order fuel path config name spl ds0 tm pc first ds1 rem :
  load_config H path = Returns config ->
  subscript2 config "dataset" "name" = Returns name ->
  subscript2 config "dataset" "split" = Returns spl ->
  load_dataset H name spl = Returns ds0 ->
  subscript config "test_mode" = Returns tm ->
  subscript config (if truthy tm then "test" else "processing") = Returns pc ->
  (if truthy tm
   then exists n idx, subscript2 config "test" "num_samples" = Returns n /\
                      range n = Returns idx /\
                      select H ds0 idx = Returns ds1 /\ first = [idx]
   else ds1 = ds0 /\ first = []) ->
  subscript2 config "dataset" "remaining_indices_file" = Returns rem ->
  (truthy rem = false ->
   hands_over H fuel path pc ds1 /\
   selections (snd (main H fuel path [])) = first) /\
  (truthy rem = true ->
   forall ridx, json_load H rem = Returns ridx ->
     (forall ds, select H ds1 ridx = Returns ds ->
        hands_over H fuel path pc ds /\
        selections (snd (main H fuel path [])) = first ++ [ridx]) /\
     (forall e, select H ds1 ridx = Raises e ->
        fst (main H fuel path []) = Raises e /\
        printed (snd (main H fuel path [])) = [] /\
        selections (snd (main H fuel path [])) = first ++ [ridx])).
Proof.
  intros Hload Hname Hspl Hds0 Htm Hpc Hfirst Hrem.
  assert (Hcases : first = [] \/ exists idx, first = [idx]).
  { destruct (truthy tm).
    - destruct Hfirst as (n & idx & _ & _ & _ & ->). eauto.
    - destruct Hfirst as (_ & ->). auto. }
  assert (Hprep : prepare H path []
                  = match (if truthy rem
                           then match json_load H rem with
                                | Returns ridx =>
                                    match select H ds1 ridx with
                                    | Returns ds => (Returns (ds, [LogSubsample (length ds) name]),
                                                     [OpenRemaining rem; Select ridx])
                                    | Raises e => (Raises e, [OpenRemaining rem; Select ridx])
                                    end
                                | Raises e => (Raises e, [OpenRemaining rem])
                                end
                           else (Returns (ds1, [LogFull name]), []))
                    with
                    | (Returns (ds, logged), events) =>
                        (Returns (config, pc, ds),
                         [LoadConfig path; ConfigureLogging; LoadDataset name spl]
                           ++ map Select first ++ events ++ logged)
                    | (Raises e, events) =>
                        (Raises e,
                         [LoadConfig path; ConfigureLogging; LoadDataset name spl]
                           ++ map Select first ++ events)
                    end).
  { unfold prepare, bind, perform, log, lift, ret.
    rewrite Hload, Hname, Hspl, Hds0, Htm, Hrem.
    destruct (truthy tm).
    - destruct Hfirst as (n & idx & Hn & Hidx & Hsel & ->).
      rewrite Hpc, Hn, Hidx, Hsel.
      destruct (truthy rem); [|reflexivity].
      destruct (json_load H rem) as [ridx|e]; [|reflexivity].
      destruct (select H ds1 ridx) as [ds|e]; reflexivity.
    - destruct Hfirst as (-> & ->). rewrite Hpc.
      destruct (truthy rem); [|reflexivity].
      destruct (json_load H rem) as [ridx|e]; [|reflexivity].
      destruct (select H ds0 ridx) as [ds|e]; reflexivity. }
  split.
  - intros Hfalse. rewrite Hfalse in Hprep.
    destruct (main_after_prepare fuel path _ _ _ _ Hprep) as (Hpre & Hs & _).
    split; [exists config; eauto|].
    rewrite Hs. destruct Hcases as [-> | [idx ->]]; reflexivity.
  - intros Htrue ridx Hj. rewrite Htrue, Hj in Hprep. split.
    + intros ds Hsel. rewrite Hsel in Hprep.
      destruct (main_after_prepare fuel path _ _ _ _ Hprep) as (Hpre & Hs & _).
      split; [exists config; eauto|].
      rewrite Hs. destruct Hcases as [-> | [idx ->]]; reflexivity.
    + intros e Hsel. rewrite Hsel in Hprep.
      unfold main, bind. rewrite Hprep. cbn [fst snd].
      split; [reflexivity|].
      destruct Hcases as [-> | [idx ->]]; split; reflexivity.
Qed.

End OrchestratorFacts.

(** ** The claims about the worker, run on concrete chunks *)

Lemma exactly_once_success_accounting_witness :
  let after := state_after second_item_retried 0 "out" 2 16000 3 (VStr "spk") "parquet" two_items 1 in
  let before := state_before second_item_retried 0 "out" 2 16000 3 (VStr "spk") "parquet" two_items 1 in
  increments (trace after) = S (increments (trace before)) /\
  attempts (trace after) = (attempts (trace before) + 1 + 1)%nat /\
  exists final,
    process_and_save_text second_item_retried 0 "out" 2 16000 3 (VStr "spk") "parquet" two_items
    = (Returns tt, final) /\
    filter (fun x => rec_index x = 8) (written (trace final)) = [mkRecord 8 "b" "b"].
Proof.
  apply (exactly_once_success_accounting second_item_retried 0 "out" 2 16000 3
           (VStr "spk") "parquet" two_items 1%nat (mkRow 8 "b") 1%nat (mkRecord 8 "b" "b")).
  - reflexivity.
  - apply (bool_decide_unpack (NoDup (map row_index two_items))). exact I.
  - vm_compute. lia.
  - intros j Hj. assert (j = 0%nat) as -> by lia. eexists. reflexivity.
  - reflexivity.
  - split; intros; reflexivity.
  - split; intros; reflexivity.
Defined.

Lemma exhausted_retries_are_recorded_witness :
  let after := state_after second_item_fails 0 "out" 2 16000 3 (VStr "spk") "parquet" two_items 1 in
  let before := state_before second_item_fails 0 "out" 2 16000 3 (VStr "spk") "parquet" two_items 1 in
  attempts (trace after) = (attempts (trace before) + 3)%nat /\
  last (trace after) = Some (LogError 8) /\
  failed_indices after = failed_indices before ++ [8] /\
  increments (trace after) = increments (trace before) /\
  forall res final,
    process_and_save_text second_item_fails 0 "out" 2 16000 3 (VStr "spk") "parquet" two_items
    = (res, final) ->
    (8 ∉ map rec_index (written (trace final))) /\
    (res = Returns tt -> 8 ∈ persisted_failed (trace final)).
Proof.
  apply (exhausted_retries_are_recorded second_item_fails 0 "out" 2 16000 3
           (VStr "spk") "parquet" two_items 1%nat (mkRow 8 "b")).
  - lia.
  - reflexivity.
  - apply (bool_decide_unpack (NoDup (map row_index two_items))). exact I.
  - intros k _. eexists. reflexivity.
Defined.

Lemma write_failure_fatal_only_in_drain_witness :
  (forall p row, two_items !! p = Some row ->
     (attempts (trace (state_before first_flush_raises 0 "out" 1 16000 2 (VStr "spk")
                                    "parquet" two_items p))
      < attempts (trace (state_after first_flush_raises 0 "out" 1 16000 2 (VStr "spk")
                                     "parquet" two_items p)))%nat) /\
  (forall e,
     fst (process_and_save_text first_flush_raises 0 "out" 1 16000 2 (VStr "spk")
                                "parquet" two_items) = Raises e <->
     drain_fails first_flush_raises 0 "out"
       (after_items first_flush_raises 0 "out" 1 16000 2 (VStr "spk") "parquet" two_items) e).
Proof.
  destruct (write_failure_fatal_only_in_drain first_flush_raises 0 "out" 1 16000 2
              (VStr "spk") "parquet" two_items) as (H1 & _ & _ & H4 & _).
  - lia.
  - split; assumption.
Defined.

Lemma batch_flush_threshold_witness :
  let C := scripted (fun _ _ => true) always always in
  let st := mkState [] [8] [] in
  offer_all C 0 "out" 2 [(InLoop 0 0, mkRecord 7 "a" "a")] st
  = (Returns tt, mkState [mkRecord 7 "a" "a"] [8] []) /\
  offer_all C 0 "out" 2 [(InLoop 0 0, mkRecord 7 "a" "a"); (InLoop 2 0, mkRecord 9 "c" "c")] st
  = (Returns tt,
     mkState [] []
       [SaveBatch [mkRecord 7 "a" "a"; mkRecord 9 "c" "c"];
        SaveFailedIndices "out/failed_indices_0.json" [8]]).
Proof.
  apply (batch_flush_threshold (scripted (fun _ _ => true) always always) 0 "out" 2
           [(InLoop 0 0, mkRecord 7 "a" "a")] (InLoop 2 0) (mkRecord 9 "c" "c")
           (mkState [] [8] [])).
  - lia.
  - reflexivity.
  - split; intros; reflexivity.
Defined.

Lemma drain_on_exit_witness :
  let st := after_items second_item_fails 0 "out" 3 16000 3 (VStr "spk") "parquet" two_items in
  closed (trace st) = false /\
  process_and_save_text second_item_fails 0 "out" 3 16000 3 (VStr "spk") "parquet" two_items
  = (Returns tt,
     mkState (batch st) (failed_indices st)
       (trace st
        ++ (if bool_decide (batch st <> []) then [SaveBatch (batch st)] else [])
        ++ (if bool_decide (failed_indices st <> [])
            then [SaveFailedIndices (saved_failed_indice_path 0 "out") (failed_indices st)]
            else [])
        ++ [WriterClose])).
Proof.
  apply (drain_on_exit second_item_fails 0 "out" 3 16000 3 (VStr "spk") "parquet" two_items).
  split; intros; reflexivity.
Defined.

Lemma drain_failure_propagates_witness :
  exists final,
    process_and_save_text drain_flush_raises 0 "out" 3 16000 3 (VStr "spk") "parquet" two_items
    = (Raises (CollaboratorError "disk full"), final) /\
    closed (trace final) = false.
Proof.
  apply (drain_failure_propagates drain_flush_raises 0 "out" 3 16000 3 (VStr "spk")
           "parquet" two_items).
  left. split.
  - vm_compute. discriminate.
  - reflexivity.
Defined.

(** C1 -- exactly-once success accounting, on the input where the code
    misses it.  The chunk is the single item of index 7, the batch holds
    one record and two attempts are allowed.  On attempt 1 the stages
    return, the record is appended (line 94) and the flush of line 103
    raises; the handler of line 111 logs the failure and the record stays
    in the batch; on attempt 2 the stages return again, the record is
    appended again and the flush returns.  The item has succeeded on
    attempt 2 and the counter was incremented once, but the output holds
    two records carrying index 7, where the claim asks for exactly one. *)
Lemma retried_flush_writes_the_record_twice :
  fst retried_flush_run = Returns tt /\
  attempts (trace (snd retried_flush_run)) = 2%nat /\
  increments (trace (snd retried_flush_run)) = 1%nat /\
  filter (fun x => rec_index x = 7) (written (trace (snd retried_flush_run)))
  = [mkRecord 7 "a" "a"; mkRecord 7 "a" "a"].
Proof. repeat split; reflexivity. Qed.

(** C2 -- a failed write is fatal to the worker, on the input where the
    code misses it.  The flush of the first item raises inside the loop
    (line 103), within the [try] of line 89.  The worker does not stop:
    the handler of line 111 logs the failure as attempt 1 of index 7 and
    the item is attempted again (its record is appended a second time and
    both copies are flushed), the second item is processed, and the
    worker returns, where the claim asks that the worker stop without a
    retry -- as the drain of lines 120-125 does for the same failure. *)
Lemma write_failure_in_loop_is_not_fatal :
  save_batch first_flush_raises (InLoop 0 0) [mkRecord 7 "a" "a"]
  = Raises (CollaboratorError "disk full") /\
  process_and_save_text first_flush_raises 0 "out" 1 16000 2 (VStr "spk") "parquet" two_items
  = (Returns tt,
     mkState [] []
       [WriterOpen "out/audio_tokens_0" "parquet";
        CallTTS "a"; CallTokenizer;
        LogWarning 1 7 (CollaboratorError "disk full");
        CallTTS "a"; CallTokenizer;
        SaveBatch [mkRecord 7 "a" "a"; mkRecord 7 "a" "a"];
        SaveFailedIndices "out/failed_indices_0.json" [];
        Increment;
        CallTTS "b"; CallTokenizer;
        SaveBatch [mkRecord 8 "b" "b"];
        SaveFailedIndices "out/failed_indices_0.json" [];
        Increment;
        WriterClose]).
Proof. split; reflexivity. Qed.

(** ** The claims about the orchestrator, run on a concrete host *)

Lemma round_robin_assignment_witness :
  exists res tr,
    run_pipeline demo_host 5 two_items (VDict pipeline_settings) [] = (res, tr) /\
    chunk_requests tr = [VInt 4] /\
    length (starts tr) = 4%nat /\
    forall i chunk,
      replicate 4 two_items !! i = Some chunk ->
      exists device,
        [VStr "cuda:0"; VStr "cuda:1"] !! (i mod 2)%nat = Some device /\
        starts tr !! i
        = Some (mkArgs chunk device i (VStr "out") (VInt 3) (VInt 16000) (VInt 3)
                       (VStr "spk") (VStr "parquet")).
Proof.
  apply (round_robin_assignment demo_host 5 two_items pipeline_settings
           [VStr "cuda:0"; VStr "cuda:1"] 2 (VStr "out") (VInt 3) (VInt 16000) (VInt 3)
           "default_speaker" (VStr "parquet") (VStr "spk") (replicate 4 two_items)).
  - repeat constructor.
  - reflexivity.
  - reflexivity.
  - reflexivity.
  - discriminate.
Defined.

Lemma missing_key_is_fatal_at_start_witness :
  exists k,
    k ∈ required_keys /\ delete "speaker" pipeline_settings !! k = None /\
    run_pipeline demo_host 5 two_items (VDict (delete "speaker" pipeline_settings)) []
    = (Raises (KeyError k), [PrintConfig (VDict (delete "speaker" pipeline_settings))]).
Proof.
  apply (missing_key_is_fatal_at_start demo_host 5 two_items
           (delete "speaker" pipeline_settings) "speaker").
  - apply (bool_decide_unpack ("speaker" ∈ required_keys)). exact I.
  - reflexivity.
Defined.

Lemma unknown_speaker_is_fatal_at_start_witness :
  exists e tr,
    run_pipeline demo_host 5 two_items
                 (VDict (<["speaker" := VStr "nobody"]> pipeline_settings)) []
    = (Raises e, tr) /\
    (tr = [PrintConfig (VDict (<["speaker" := VStr "nobody"]> pipeline_settings))] \/
     tr = [PrintConfig (VDict (<["speaker" := VStr "nobody"]> pipeline_settings));
           ImportModule "speakers"]) /\
    made_dirs tr = [] /\ chunk_requests tr = [] /\ starts tr = [].
Proof.
  apply (unknown_speaker_is_fatal_at_start demo_host 5 two_items
           (VDict (<["speaker" := VStr "nobody"]> pipeline_settings))).
  intros name Hname. vm_compute in Hname. injection Hname as <-. reflexivity.
Defined.

Lemma progress_polling_join_and_upload_witness :
  run_pipeline demo_host 5 two_items (VDict pipeline_settings) []
  = (Returns Finished,
     snd (launch demo_host two_items (VDict pipeline_settings) [])
     ++ [LogProcessed 0; Sleep 60; LogProcessed 1; Sleep 60]
     ++ [ProcessJoin 0; ProcessJoin 1; ProcessJoin 2; ProcessJoin 3]
     ++ [LogAllFinished; LogFinalCount 10]) /\
  (length (uploads (snd (main demo_host 5 "cfg.yaml" []))) <= 1)%nat.
Proof.
  destruct (progress_polling_join_and_upload demo_host) as [Hrun Hmain]. split.
  - apply (Hrun 5%nat two_items (VDict pipeline_settings) [0; 1; 2; 3]%nat
                (snd (launch demo_host two_items (VDict pipeline_settings) [])) 2%nat).
    + reflexivity.
    + intros k Hk. assert (k = 0 \/ k = 1)%nat as [-> | ->] by lia; reflexivity.
    + reflexivity.
    + lia.
  - apply (Hmain 5%nat "cfg.yaml"%string
                 (fst (main demo_host 5 "cfg.yaml" []))
                 (snd (main demo_host 5 "cfg.yaml" []))).
    apply surjective_pairing.
Defined.

(** ** The further properties, run on concrete inputs *)

Lemma every_item_is_settled_once_witness :
  exists final,
    process_and_save_text second_item_fails 0 "out" 2 16000 3 (VStr "spk") "parquet" two_items
    = (Returns tt, final) /\
    map rec_index (written (trace final)) ++ persisted_failed (trace final)
    ≡ₚ batch_index two_items /\
    increments (trace final) = length (written (trace final)).
Proof.
  apply (every_item_is_settled_once second_item_fails 0 "out" 2 16000 3
           (VStr "spk") "parquet" two_items).
  - intros s. split; intros; reflexivity.
  - lia.
Defined.

Lemma chunk_order_is_kept_witness :
  map rec_index
      (written (trace (snd (process_and_save_text second_item_fails 0 "out" 2 16000 3
                              (VStr "spk") "parquet" two_items))))
  `sublist_of` batch_index two_items /\
  persisted_failed
    (trace (snd (process_and_save_text second_item_fails 0 "out" 2 16000 3
                   (VStr "spk") "parquet" two_items)))
  `sublist_of` batch_index two_items.
Proof.
  apply (chunk_order_is_kept second_item_fails 0 "out" 2 16000 3
           (VStr "spk") "parquet" two_items).
  - intros p a. split; intros; reflexivity.
  - lia.
Defined.

Lemma batch_stays_below_threshold_witness :
  batch_bounded 1
    (state_before second_item_retried 0 "out" 1 16000 3 (VStr "spk") "parquet" two_items 2).
Proof.
  apply (batch_stays_below_threshold second_item_retried 0 "out" 1 16000 3
           (VStr "spk") "parquet" two_items 2%nat).
  - intros q a. split; intros; reflexivity.
  - lia.
Defined.

Lemma no_retries_no_processing_witness :
  process_and_save_text second_item_fails 0 "out" 2 16000 0 (VStr "spk") "parquet" two_items
  = (Returns tt, mkState [] [] [WriterOpen (file_path 0 "out") "parquet"; WriterClose]).
Proof.
  apply (no_retries_no_processing second_item_fails 0 "out" 2 16000 0
           (VStr "spk") "parquet" two_items).
  lia.
Defined.

Lemma failed_output_matches_error_log_witness :
  persisted_failed
    (trace (snd (process_and_save_text second_item_fails 0 "out" 2 16000 3
                   (VStr "spk") "parquet" two_items)))
  = logged_errors
      (trace (snd (process_and_save_text second_item_fails 0 "out" 2 16000 3
                     (VStr "spk") "parquet" two_items))).
Proof.
  apply (failed_output_matches_error_log second_item_fails 0 "out" 2 16000 3
           (VStr "spk") "parquet" two_items).
  reflexivity.
Defined.

Lemma worker_files_are_private_witness :
  file_path 0 "out" <> file_path 1 "out" /\
  saved_failed_indice_path 0 "out" <> saved_failed_indice_path 1 "out" /\
  file_path 0 "out" <> saved_failed_indice_path 1 "out" /\
  file_path 0 "out" <> saved_failed_indice_path 0 "out".
Proof.
  apply (worker_files_are_private "out" 0 1). lia.
Defined.

Lemma every_item_is_counted_or_failed_witness :
  (increments
     (trace (snd (process_and_save_text first_flush_raises 0 "out" 1 16000 2
                    (VStr "spk") "parquet" two_items)))
   + length
       (logged_errors
          (trace (snd (process_and_save_text first_flush_raises 0 "out" 1 16000 2
                         (VStr "spk") "parquet" two_items)))))%nat
  = length two_items.
Proof.
  apply (every_item_is_counted_or_failed first_flush_raises 0 "out" 1 16000 2
           (VStr "spk") "parquet" two_items).
  lia.
Defined.

Lemma workers_start_after_the_setup_witness :
  exists sd nw rest,
    snd (run_pipeline demo_host 5 two_items (VDict pipeline_settings) [])
    = [PrintConfig (VDict pipeline_settings); ImportModule "speakers"; Makedirs sd;
       LogDatasetSize (length two_items); CreateChunks nw; NewCounter]
      ++ map ProcessStart
             (starts (snd (run_pipeline demo_host 5 two_items (VDict pipeline_settings) [])))
      ++ rest /\
    starts rest = [].
Proof.
  apply (workers_start_after_the_setup demo_host 5 two_items (VDict pipeline_settings)).
  vm_compute. discriminate.
Defined.

Lemma no_device_no_worker_witness :
  run_pipeline one_chunk_host 5 two_items (VDict no_device_settings) []
  = (Raises ZeroDivisionError,
     [PrintConfig (VDict no_device_settings); ImportModule "speakers";
      Makedirs (VStr "out"); LogDatasetSize (length two_items);
      CreateChunks (VInt 0); NewCounter]).
Proof.
  destruct (no_device_no_worker one_chunk_host 5 two_items no_device_settings
              2 (VStr "out") (VInt 3) (VInt 16000) (VInt 3) "default_speaker"
              (VStr "parquet") (VStr "spk") [two_items]) as [Hraise _].
  - repeat constructor.
  - reflexivity.
  - reflexivity.
  - reflexivity.
  - apply Hraise. discriminate.
Defined.

Lemma missing_upload_key_is_found_last_witness :
  fst (main no_upload_host 5 "cfg.yaml" []) <> Returns Finished /\
  uploads (snd (main no_upload_host 5 "cfg.yaml" [])) = [] /\
  (joins (snd (main no_upload_host 5 "cfg.yaml" [])) <> [] ->
   fst (main no_upload_host 5 "cfg.yaml" []) = Raises (KeyError "upload_to_s3")) /\
  snd (main no_upload_host 5 "cfg.yaml" [])
  = snd (run_pipeline no_upload_host 5 [mkRow 0 "a"; mkRow 1 "b"] (VDict pipeline_settings)
           [LoadConfig "cfg.yaml"; ConfigureLogging;
            LoadDataset (VStr "prompts") (VStr "train"); LogFull (VStr "prompts")]) /\
  fst (main no_upload_host 5 "cfg.yaml" []) = Raises (KeyError "upload_to_s3").
Proof.
  destruct (missing_upload_key_is_found_last no_upload_host 5 "cfg.yaml" no_upload_config
              (KeyError "upload_to_s3")) as (Hnot & Hup & Hjoined & Hrun).
  - reflexivity.
  - reflexivity.
  - destruct (Hrun (VDict pipeline_settings) [mkRow 0 "a"; mkRow 1 "b"]
                [LoadConfig "cfg.yaml"; ConfigureLogging;
                 LoadDataset (VStr "prompts") (VStr "train"); LogFull (VStr "prompts")])
      as (Htrace & Hfinished & _).
    + reflexivity.
    + split; [exact Hnot|]. split; [exact Hup|]. split; [exact Hjoined|].
      split; [exact Htrace|]. apply Hfinished. reflexivity.
Defined.

Lemma each_started_process_is_joined_once_witness :
  exists pre,
    snd (run_pipeline demo_host 5 two_items (VDict pipeline_settings) [])
    = pre ++ [LogAllFinished; LogFinalCount (final_count demo_host)] /\
    joins pre = map w_process_id (starts pre) /\
    starts pre = starts (snd (run_pipeline demo_host 5 two_items (VDict pipeline_settings) [])).
Proof.
  apply (each_started_process_is_joined_once demo_host 5 two_items (VDict pipeline_settings)).
  reflexivity.
Defined.

Lemma pipeline_section_follows_test_mode_witness :
  printed (snd (main test_host 5 "cfg.yaml" [])) = [] \/
  exists pc,
    subscript test_config (if truthy (VBool true) then "test" else "processing")
    = Returns pc /\
    printed (snd (main test_host 5 "cfg.yaml" [])) = [pc].
Proof.
  apply (pipeline_section_follows_test_mode test_host 5 "cfg.yaml" test_config (VBool true)).
  - reflexivity.
  - reflexivity.
Defined.

Lemma dataset_is_narrowed_in_order_witness :
  (hands_over test_host 5 "cfg.yaml"
              (VDict (<["num_samples" := VInt 2]> pipeline_settings)) [mkRow 1 "b"] /\
   selections (snd (main test_host 5 "cfg.yaml" [])) = [[0; 1]] ++ [[1]]) /\
  (fst (main beyond_host 5 "cfg.yaml" []) = Raises IndexError /\
   printed (snd (main beyond_host 5 "cfg.yaml" [])) = [] /\
   selections (snd (main beyond_host 5 "cfg.yaml" [])) = [[0; 1]] ++ [[2]]).
Proof.
  split.
  - destruct (dataset_is_narrowed_in_order test_host 5 "cfg.yaml" test_config
                (VStr "prompts") (VStr "train")
                [mkRow 0 "a"; mkRow 1 "b"; mkRow 2 "c"] (VBool true)
                (VDict (<["num_samples" := VInt 2]> pipeline_settings))
                [[0; 1]] [mkRow 0 "a"; mkRow 1 "b"] (VStr "left.json"))
      as [_ Hset].
    + reflexivity.
    + reflexivity.
    + reflexivity.
    + reflexivity.
    + reflexivity.
    + reflexivity.
    + exists (VInt 2), [0; 1]. repeat split; reflexivity.
    + reflexivity.
    + destruct (Hset eq_refl [1] eq_refl) as [Hret _].
      apply (Hret [mkRow 1 "b"]). reflexivity.
  - destruct (dataset_is_narrowed_in_order beyond_host 5 "cfg.yaml" test_config
                (VStr "prompts") (VStr "train")
                [mkRow 0 "a"; mkRow 1 "b"; mkRow 2 "c"] (VBool true)
                (VDict (<["num_samples" := VInt 2]> pipeline_settings))
                [[0; 1]] [mkRow 0 "a"; mkRow 1 "b"] (VStr "left.json"))
      as [_ Hset].
    + reflexivity.
    + reflexivity.
    + reflexivity.
    + reflexivity.
    + reflexivity.
    + reflexivity.
    + exists (VInt 2), [0; 1]. repeat split; reflexivity.
    + reflexivity.
    + destruct (Hset eq_refl [2] eq_refl) as [_ Hraise].
      apply (Hraise IndexError). reflexivity.
Defined.
